(** * News aggregation backend: a shallow embedding of [main.py]

    The development follows the two functions of the program that carry
    logic: [fetch_rss_feed] (fetch one feed, parse RSS 2.0 or Atom into
    item dictionaries) and [get_live_news] (concatenate the feeds,
    deduplicate by link, sort by timestamp, truncate).

    Python values are modelled as follows.
    - [str] is [string]; a character is one code point below 256.
    - [int] is [Z].
    - a value that may be [None] is an [option].
    - the item dictionaries always carry the same five keys, so they are
      a record, [FeedItem].
    - the [set] of seen links is a [gset string].
    - exceptions are the [Raise] branch of the [result] monad. *)

From Stdlib Require Import ZArith Ascii.
From stdpp Require Import base option list sorting strings gmap.

#[local] Set Warnings "-clear-no-such-hyp".

Local Open Scope Z_scope.

(** ** Python string primitives *)

Module PyStr.

(** [str.isspace] on one character (code points below 256). *)
Definition isspace (c : ascii) : bool :=
  let n := N_of_ascii c in
  ((9 <=? n) && (n <=? 13) || (28 <=? n) && (n <=? 32)
   || (n =? 133) || (n =? 160))%N.

Fixpoint lstrip (s : string) : string :=
  match s with
  | String c s' => if isspace c then lstrip s' else s
  | EmptyString => EmptyString
  end.

Definition rstrip (s : string) : string :=
  String.rev (lstrip (String.rev s)).

(** [s.strip()] *)
Definition strip (s : string) : string := rstrip (lstrip s).

(** [s.split()]: the maximal runs of non-blank characters. *)
Fixpoint split (s : string) : list string :=
  match s with
  | EmptyString => []
  | String c s' =>
      if isspace c then split s'
      else match s' with
           | EmptyString => [String c EmptyString]
           | String d _ =>
               if isspace d then String c EmptyString :: split s'
               else match split s' with
                    | w :: ws => String c w :: ws
                    | [] => [String c EmptyString]
                    end
           end
  end.

(** [s.split(sep)] for a one-character separator: empty pieces are kept. *)
Fixpoint split_on (sep : ascii) (s : string) : list string :=
  match s with
  | EmptyString => [EmptyString]
  | String c s' =>
      if Ascii.eqb c sep then EmptyString :: split_on sep s'
      else match split_on sep s' with
           | w :: ws => String c w :: ws
           | [] => [String c EmptyString]
           end
  end.

(** [s.find(c)]: the first index of [c], or [-1]. *)
Fixpoint find (c : ascii) (s : string) : Z :=
  match s with
  | EmptyString => -1
  | String d s' =>
      if Ascii.eqb d c then 0
      else let i := find c s' in if i <? 0 then -1 else i + 1
  end.

(** [s.rfind(c)]: the last index of [c], or [-1]. *)
Fixpoint rfind (c : ascii) (s : string) : Z :=
  match s with
  | EmptyString => -1
  | String d s' =>
      let i := rfind c s' in
      if 0 <=? i then i + 1 else if Ascii.eqb d c then 0 else -1
  end.

(** [s.endswith(c)] *)
Fixpoint endswith (c : ascii) (s : string) : bool :=
  match s with
  | EmptyString => false
  | String d EmptyString => Ascii.eqb d c
  | String _ s' => endswith c s'
  end.

Definition lower_char (c : ascii) : ascii :=
  let n := N_of_ascii c in
  if ((65 <=? n) && (n <=? 90)
      || (192 <=? n) && (n <=? 222) && negb (n =? 215))%N
  then ascii_of_N (n + 32) else c.

(** [s.lower()] *)
Fixpoint lower (s : string) : string :=
  match s with
  | EmptyString => EmptyString
  | String c s' => String (lower_char c) (lower s')
  end.

(** [s[:i]] and [s[i:]] for [0 <= i]. *)
Definition upto (i : Z) (s : string) : string :=
  String.substring 0 (Z.to_nat i) s.
Definition from (i : Z) (s : string) : string :=
  String.substring (Z.to_nat i) (String.length s - Z.to_nat i) s.

(** Truth value of a string: [""] is false. *)
Definition truthy (s : string) : bool :=
  match s with EmptyString => false | _ => true end.

End PyStr.

(** ** Python list slicing *)

(** [l[:stop]]: a negative [stop] counts from the end of the list, and the
    bound is clamped into [0 .. len(l)]. *)
Definition slice_upto {A : Type} (l : list A) (stop : Z) : list A :=
  let n := Z.of_nat (length l) in
  let stop' := if stop <? 0 then Z.max 0 (stop + n) else Z.min stop n in
  take (Z.to_nat stop') l.

(** ** Exceptions *)

(** The exceptions that derive from [Exception], which are the ones
    [except Exception] catches. [KeyboardInterrupt], [SystemExit] and
    the like derive from [BaseException] only; they are not values of
    this type and nothing below is said about them. *)
Inductive exn : Type :=
  | Timeout
  | ConnectionError
  | RequestException (what : string)
  | HTTPError (status : Z)
  | ParseError
  | AttributeError
  | ValueError
  | OtherException (what : string).

Inductive result (A : Type) : Type :=
  | Ok (a : A)
  | Raise (e : exn).
Arguments Ok {A} a.
Arguments Raise {A} e.

Definition bind {A B : Type} (m : result A) (k : A → result B) : result B :=
  match m with
  | Ok a => k a
  | Raise e => Raise e
  end.

Notation "x ←! m ;; k" := (bind m (λ x, k))
  (at level 100, m at next level, right associativity, only parsing).

(** A [for] loop whose body may raise and that appends one value per
    iteration: the first exception leaves the loop. *)
Fixpoint for_append {A B : Type} (body : A → result B) (l : list A)
  : result (list B) :=
  match l with
  | [] => Ok []
  | a :: l' => b ←! body a ;; bs ←! for_append body l' ;; Ok (b :: bs)
  end.

(** [try: body except Exception: return handler] *)
Definition try_except {A : Type} (body : result A) (handler : A) : A :=
  match body with
  | Ok a => a
  | Raise _ => handler
  end.

(** ** The element tree of [xml.etree.ElementTree] *)

#[warnings="-register-all"]
Inductive Element : Type :=
  mkElement {
    tag : string;
    attrib : gmap string string;
    text : option string;
    children : list Element
  }.

Module ET.

(** [el.findall(tag)]: the direct children with that tag, in document
    order. *)
Definition findall (t : string) (el : Element) : list Element :=
  filter (λ c, tag c = t) (children el).

(** [el.find(tag)]: the first such child, or [None]. *)
Definition find (t : string) (el : Element) : option Element :=
  head (findall t el).

(** [el.findtext(tag)]: [None] when there is no such child, the child's
    text otherwise, an absent text being read as [""]. *)
Definition findtext (t : string) (el : Element) : option string :=
  (λ c, default "" (text c)) <$> find t el.

(** [el.get(name)] *)
Definition get (name : string) (el : Element) : option string :=
  attrib el !! name.

(** Clark notation of a namespaced tag, as [find] resolves a prefixed
    name through the namespace map. *)
Definition qname (ns local : string) : string :=
  "{" +:+ ns +:+ "}" +:+ local.

End ET.

(** What [ET.fromstring] makes of the bytes of a response body. *)
Inductive Body : Type :=
  | NotXml
  | Xml (root : Element).

Definition ET_fromstring (b : Body) : result Element :=
  match b with
  | NotXml => Raise ParseError
  | Xml root => Ok root
  end.

(** ** The [requests] response *)

Record Response : Type := mkResponse {
  status_code : Z;
  content : Body
}.

(** [resp.raise_for_status()]: client and server error codes raise. *)
Definition raise_for_status (resp : Response) : result unit :=
  if (400 <=? status_code resp) && (status_code resp <? 600)
  then Raise (HTTPError (status_code resp))
  else Ok tt.

(** ** [email.utils.parsedate_to_datetime] *)

Module EmailUtils.

Definition _daynames : list string :=
  ["mon"; "tue"; "wed"; "thu"; "fri"; "sat"; "sun"].

(** The first part of [_parsedate_tz]: the text is cut into at least
    five fields (day, month, year, time, zone), or the parse fails. *)
Definition date_fields (data : string) : option (list string) :=
  if negb (PyStr.truthy data) then None else
  match PyStr.split data with
  | [] => None
  | d0 :: rest =>
      let data :=
        if PyStr.endswith "," d0 || bool_decide (PyStr.lower d0 ∈ _daynames)
        then rest
        else let i := PyStr.rfind "," d0 in
             if 0 <=? i then PyStr.from (i + 1) d0 :: rest else d0 :: rest in
      let data :=
        match data with
        | [a; b; c] =>
            let stuff := PyStr.split_on "-" a in
            if (length stuff =? 3)%nat then stuff ++ [b; c] else data
        | _ => data
        end in
      let data :=
        match data with
        | [a; b; c; s] =>
            let i := PyStr.find "+" s in
            let i := if i =? -1 then PyStr.find "-" s else i in
            if 0 <? i then [a; b; c; PyStr.upto i s; PyStr.from i s]
            else [a; b; c; s; ""]
        | _ => data
        end in
      if (length data <? 5)%nat then None else Some (take 5 data)
  end.

End EmailUtils.

(** ** Item dictionaries *)

(** The five keys of an item. [link] and [published] are [None] when the
    Atom branch reads an absent attribute or an absent text;
    [published_ts] is [None] when no date could be derived. *)
Record FeedItem : Type := mkFeedItem {
  title : string;
  link : option string;
  published : option string;
  published_ts : option string;
  source : string
}.

Global Instance FeedItem_eq_dec : EqDecision FeedItem.
Proof. solve_decision. Defined.

(** [x or ""] *)
Definition or_empty (x : option string) : string :=
  match x with
  | Some s => if PyStr.truthy s then s else ""
  | None => ""
  end.

(** Truth value of [it.get("link")]: [None] and [""] are false. *)
Definition truthy_opt (x : option string) : bool :=
  match x with
  | Some s => PyStr.truthy s
  | None => false
  end.

(** ** [list.sort(key=..., reverse=True)] *)

(** The library sort is stable, also under [reverse=True]: the result is
    in descending key order and elements with equal keys keep their
    order. Keys are strings, compared by code point. The model inserts
    each element, from the last one back, in front of the first element
    whose key is not larger. *)
Section Sort.
Context {A : Type} (key : A → string).

Fixpoint insert_desc (x : A) (l : list A) : list A :=
  match l with
  | [] => [x]
  | y :: l' =>
      if String.ltb (key x) (key y) then y :: insert_desc x l'
      else x :: y :: l'
  end.

Fixpoint sort_reverse (l : list A) : list A :=
  match l with
  | [] => []
  | x :: l' => insert_desc x (sort_reverse l')
  end.

(** [a] may stand before [b] in a descending arrangement. *)
Definition key_ge (a b : A) : Prop := String.le (key b) (key a).
End Sort.

(** ** The program *)

Definition atom_ns : string := "http://www.w3.org/2005/Atom".

Definition feeds : list string :=
  [ "https://www.nasdaq.com/feed/rssoutbound?category=Investing";
    "https://www.marketwatch.com/feeds/topstories";
    "https://www.edweek.org/feeds/index.rss" ].

Record NewsResponse : Type := mkNewsResponse {
  items : list FeedItem;
  count : Z
}.

(** What the program takes from outside: the standard library's date
    type with its [isoformat] method, the part of
    [parsedate_to_datetime] that turns the five date fields into a date
    (it may raise), and the network, that is, what
    [requests.get(url, timeout=8)] does for a URL. *)
Class World : Type := mkWorld {
  datetime : Type;
  isoformat : datetime → string;
  datetime_of_fields : list string → result datetime;
  requests_get : string → result Response
}.

(** The world [w] with its network replaced by [net]. *)
Definition with_net (w : World) (net : string → result Response) : World :=
  {| datetime := @datetime w;
     isoformat := @isoformat w;
     datetime_of_fields := @datetime_of_fields w;
     requests_get := net |}.

Section Program.
Context {world : World}.

Definition parsedate_to_datetime (data : string) : result datetime :=
  match EmailUtils.date_fields data with
  | None => Raise ValueError
  | Some fields => datetime_of_fields fields
  end.

(** [try: dt = parsedate_to_datetime(pub) if pub else None
     except Exception: dt = None] *)
Definition parse_date (pub : option string) : option datetime :=
  try_except
    (if truthy_opt pub
     then dt ←! parsedate_to_datetime (default "" pub) ;; Ok (Some dt)
     else Ok None)
    None.

(** The body of the RSS loop, for one [item] element. *)
Definition rss_item (url : string) (item : Element) : FeedItem :=
  let title := PyStr.strip (or_empty (ET.findtext "title" item)) in
  let link := PyStr.strip (or_empty (ET.findtext "link" item)) in
  let pub := PyStr.strip (or_empty (ET.findtext "pubDate" item)) in
  let dt := parse_date (Some pub) in
  {| title := title;
     link := Some link;
     published := Some pub;
     published_ts := isoformat <$> dt;
     source := url |}.

(** The body of the Atom loop, for one [entry] element. Reading
    [title_el.text.strip()] raises when the title has no text. *)
Definition atom_entry (url : string) (entry : Element) : result FeedItem :=
  let title_el := ET.find (ET.qname atom_ns "title") entry in
  let link_el := ET.find (ET.qname atom_ns "link") entry in
  let updated_el := ET.find (ET.qname atom_ns "updated") entry in
  let link :=
    match link_el with
    | Some el => ET.get "href" el
    | None => Some ""
    end in
  let pub :=
    match updated_el with
    | Some el => text el
    | None => Some ""
    end in
  let dt := parse_date pub in
  title ←! match title_el with
           | Some el =>
               match text el with
               | Some t => Ok (PyStr.strip t)
               | None => Raise AttributeError
               end
           | None => Ok ""
           end ;;
  Ok {| title := title;
        link := link;
        published := pub;
        published_ts := isoformat <$> dt;
        source := url |}.

(** The statements inside the [try] of [fetch_rss_feed]. *)
Definition fetch_rss_feed_body (url : string) (limit : Z)
  : result (list FeedItem) :=
  resp ←! requests_get url ;;
  _ ←! raise_for_status resp ;;
  root ←! ET_fromstring (content resp) ;;
  match ET.find "channel" root with
  | Some channel =>
      Ok (rss_item url <$> slice_upto (ET.findall "item" channel) limit)
  | None =>
      for_append (atom_entry url)
        (slice_upto (ET.findall (ET.qname atom_ns "entry") root) limit)
  end.

Definition fetch_rss_feed (url : string) (limit : Z) : list FeedItem :=
  try_except (fetch_rss_feed_body url limit) [].

(** [for u in feeds: collected.extend(fetch_rss_feed(u, limit=limit))] *)
Definition collect (urls : list string) (limit : Z) : list FeedItem :=
  foldl (λ collected u, collected ++ fetch_rss_feed u limit) [] urls.

(** One iteration of the deduplication loop on the pair
    [(seen, unique)]. *)
Definition dedup_step (st : gset string * list FeedItem) (it : FeedItem)
  : gset string * list FeedItem :=
  let '(seen, unique) := st in
  if negb (truthy_opt (link it)) then st
  else
    let l := default "" (link it) in
    if bool_decide (l ∈ seen) then st
    else ({[ l ]} ∪ seen, unique ++ [it]).

(** The pair [(seen, unique)] when the loop ends. *)
Definition dedup_state (collected : list FeedItem)
  : gset string * list FeedItem :=
  foldl dedup_step (∅, []) collected.

Definition dedup_by_link (collected : list FeedItem) : list FeedItem :=
  (dedup_state collected).2.

Definition sort_key (x : FeedItem) : string := or_empty (published_ts x).

(** [get_live_news] over an explicit list of feed URLs. *)
Definition aggregate (urls : list string) (limit : Z) : NewsResponse :=
  let collected := collect urls limit in
  let unique := dedup_by_link collected in
  let unique := sort_reverse sort_key unique in
  let trimmed := slice_upto unique limit in
  {| items := trimmed; count := Z.of_nat (length trimmed) |}.

Definition get_live_news (limit : Z) : NewsResponse := aggregate feeds limit.

(** The default of the [limit] query parameter. *)
Definition default_limit : Z := 9.

(** The route [GET /api/news], whose [limit] parameter is optional. *)
Definition api_news (limit : option Z) : NewsResponse :=
  get_live_news (default default_limit limit).

(** A response that [raise_for_status] lets through and whose body is a
    document. *)
Definition serves (url : string) (root : Element) : Prop :=
  ∃ resp, requests_get url = Ok resp
          ∧ ¬ (400 ≤ status_code resp < 600)
          ∧ content resp = Xml root.

(** The ways fetching and parsing can fail. *)
Inductive fetch_failure (url : string) (limit : Z) : Prop :=
  | transport_failure e :
      requests_get url = Raise e → fetch_failure url limit
  | error_status resp :
      requests_get url = Ok resp → 400 ≤ status_code resp < 600 →
      fetch_failure url limit
  | malformed_xml resp :
      requests_get url = Ok resp → content resp = NotXml →
      fetch_failure url limit
  | other_exception e :
      fetch_rss_feed_body url limit = Raise e → fetch_failure url limit.

(** The title of an Atom entry can be read: there is no title element,
    or it has text. *)
Definition has_title_text (entry : Element) : Prop :=
  match ET.find (ET.qname atom_ns "title") entry with
  | Some el => is_Some (text el)
  | None => True
  end.

End Program.

(** ** A concrete world for the examples *)

Module Scenario.

(** A date type that is its own ISO text, and a decoder of the five
    fields that accepts nothing: enough to run the program where no
    RFC 2822 date is involved. *)
Definition no_date (fields : list string) : result string :=
  Raise ValueError.

Definition leaf (t : string) (txt : option string) : Element :=
  mkElement t ∅ txt [].

Definition atom (local : string) : string := ET.qname atom_ns local.

(** Feed A, RSS 2.0: one item with link [x]. *)
Definition feedA : Element :=
  mkElement "rss" ∅ None
    [ mkElement "channel" ∅ None
        [ mkElement "item" ∅ None
            [ leaf "link" (Some "x");
              leaf "pubDate" (Some "Mon, 01 Jan 2024 00:00:00 GMT") ] ] ].

Definition atom_link (href : string) : Element :=
  mkElement (atom "link") {[ "href" := href ]} None [].

(** Feed B, Atom: entries with links [x] and [y]. *)
Definition feedB : Element :=
  mkElement (atom "feed") ∅ None
    [ mkElement (atom "entry") ∅ None
        [ atom_link "x"; leaf (atom "updated") (Some "2024-01-02T00:00:00Z") ];
      mkElement (atom "entry") ∅ None
        [ atom_link "y"; leaf (atom "updated") (Some "2024-01-03T00:00:00Z") ] ].

Definition urlA : string := "https://www.nasdaq.com/feed/rssoutbound?category=Investing".
Definition urlB : string := "https://www.marketwatch.com/feeds/topstories".

(** Feed A and feed B are served; every other URL refuses the
    connection. *)
Definition net (url : string) : result Response :=
  if bool_decide (url = urlA) then Ok (mkResponse 200 (Xml feedA))
  else if bool_decide (url = urlB) then Ok (mkResponse 200 (Xml feedB))
  else Raise ConnectionError.

(** An RSS feed with three items. *)
Definition rss3_items : list Element :=
  [ mkElement "item" ∅ None [ leaf "title" (Some "one"); leaf "link" (Some "a") ];
    mkElement "item" ∅ None [ leaf "title" (Some "two"); leaf "link" (Some "b") ];
    mkElement "item" ∅ None [ leaf "title" (Some "three"); leaf "link" (Some "c") ] ].

Definition rss3_channel : Element := mkElement "channel" ∅ None rss3_items.

Definition rss3 : Element := mkElement "rss" ∅ None [ rss3_channel ].

Definition net_rss3 (url : string) : result Response :=
  Ok (mkResponse 200 (Xml rss3)).

(** An Atom feed whose second entry has a title element without text. *)
Definition atom_empty_title : Element :=
  mkElement (atom "feed") ∅ None
    [ mkElement (atom "entry") ∅ None
        [ leaf (atom "title") (Some "first"); atom_link "a";
          leaf (atom "updated") (Some "2024-01-02T00:00:00Z") ];
      mkElement (atom "entry") ∅ None
        [ leaf (atom "title") None; atom_link "b";
          leaf (atom "updated") (Some "2024-01-03T00:00:00Z") ] ].

Definition net_empty_title (url : string) : result Response :=
  Ok (mkResponse 200 (Xml atom_empty_title)).




(** Three items: two with link [x], then one with link [y]. *)
Definition item_x1 : FeedItem := mkFeedItem "first" (Some "x") (Some "") None urlA.
Definition item_x2 : FeedItem := mkFeedItem "second" (Some "x") (Some "") None urlB.
Definition item_y : FeedItem := mkFeedItem "third" (Some "y") (Some "") None urlB.

(** The world in which the network is [net] and no date is decoded. *)
Definition world_of (net : string → result Response) : World :=
  {| datetime := string;
     isoformat := id;
     datetime_of_fields := no_date;
     requests_get := net |}.

End Scenario.

(** ** The diagnostic route [GET /test]

    [test_database] fills a report dictionary step by step; what it has
    written stays written when a later statement raises. The function
    is therefore modelled in a state and exception monad over the
    report. In this module a string is the UTF-8 encoding of the Python
    text, so that the literals of the source can be written as they
    are. *)

Module Diag.

(** The six keys of the report. *)
Record Report : Type := mkReport {
  backend : string;
  database : string;
  database_url : option string;
  database_name : option string;
  connection_status : string;
  collections : list string
}.

(** An exception that derives from [Exception]: whether it is an
    [ImportError], and its [str(e)]. Exceptions that derive from
    [BaseException] only ([KeyboardInterrupt], [SystemExit]) are not
    caught by [except Exception]; they are not values of this type. *)
Record pyexn : Type := mkExn {
  is_import_error : bool;
  message : string
}.

(** Reading [db.name] under [hasattr(db, 'name')]. *)
Inductive attr : Type :=
  | NoAttribute
  | Attribute (v : string)
  | AttributeRaises (e : pyexn).

(** The object [db]: its [name], and what [db.list_collection_names()]
    does. *)
Record Db : Type := mkDb {
  db_name : attr;
  list_collection_names : pyexn + list string
}.

(** What [from database import db] does: it raises, or binds [db] to
    [None] or to an object. *)
Inductive import_outcome : Type :=
  | ImportRaises (e : pyexn)
  | Imported (db : option Db).

(** The host of the process: the database module and the environment
    variables ([os.getenv]). *)
Class Host : Type := mkHost {
  import_db : import_outcome;
  getenv : string → option string
}.

(** A byte inside a UTF-8 sequence, after its first byte. *)
Definition is_continuation (c : ascii) : bool :=
  let n := N_of_ascii c in ((128 <=? n) && (n <? 192))%N.

(** [s[:n]] on text: the first [n] code points. *)
Fixpoint utf8_upto (n : nat) (s : string) : string :=
  match s with
  | EmptyString => EmptyString
  | String c s' =>
      if is_continuation c then String c (utf8_upto n s')
      else match n with
           | O => EmptyString
           | S n' => String c (utf8_upto n' s')
           end
  end.

(** [len(s)] on text: the number of code points. *)
Fixpoint utf8_len (s : string) : nat :=
  match s with
  | EmptyString => O
  | String c s' =>
      if is_continuation c then utf8_len s' else S (utf8_len s')
  end.

(** Statements that read and write the report and may raise. *)
Definition M (A : Type) : Type := Report → (pyexn + A) * Report.

Definition ret {A : Type} (a : A) : M A := λ r, (inr a, r).

Definition raise {A : Type} (e : pyexn) : M A := λ r, (inl e, r).

Definition seq {A B : Type} (m : M A) (k : A → M B) : M B :=
  λ r, match m r with
       | (inr a, r') => k a r'
       | (inl e, r') => (inl e, r')
       end.

Notation "x ←~ m ;; k" := (seq m (λ x, k))
  (at level 100, m at next level, right associativity, only parsing).

(** [try: body except ... as e: handler] *)
Definition try_with {A : Type} (body : M A) (handler : pyexn → M A) : M A :=
  λ r, match body r with
       | (inl e, r') => handler e r'
       | (inr a, r') => (inr a, r')
       end.

Definition set_database (v : string) : M unit :=
  λ r, (inr tt,
        mkReport (backend r) v (database_url r) (database_name r)
          (connection_status r) (collections r)).

Definition set_database_url (v : string) : M unit :=
  λ r, (inr tt,
        mkReport (backend r) (database r) (Some v) (database_name r)
          (connection_status r) (collections r)).

Definition set_database_name (v : string) : M unit :=
  λ r, (inr tt,
        mkReport (backend r) (database r) (database_url r) (Some v)
          (connection_status r) (collections r)).

Definition set_connection_status (v : string) : M unit :=
  λ r, (inr tt,
        mkReport (backend r) (database r) (database_url r) (database_name r)
          v (collections r)).

Definition set_collections (v : list string) : M unit :=
  λ r, (inr tt,
        mkReport (backend r) (database r) (database_url r) (database_name r)
          (connection_status r) v).

(** The dictionary the function starts from. *)
Definition initial : Report :=
  {| backend := "✅ Running";
     database := "❌ Not Available";
     database_url := None;
     database_name := None;
     connection_status := "Not Connected";
     collections := [] |}.

Section Route.
Context {host : Host}.

(** [from database import db] *)
Definition import_database : M (option Db) :=
  match import_db with
  | ImportRaises e => raise e
  | Imported db => ret db
  end.

(** [db.name if hasattr(db, 'name') else "✅ Connected"] *)
Definition name_or_default (db : Db) : M string :=
  match db_name db with
  | Attribute v => ret v
  | NoAttribute => ret "✅ Connected"
  | AttributeRaises e => raise e
  end.

(** [db.list_collection_names()] *)
Definition call_list_collection_names (db : Db) : M (list string) :=
  match list_collection_names db with
  | inl e => raise e
  | inr names => ret names
  end.

(** The statements of the outer [try]. *)
Definition test_database_try : M unit :=
  db ←~ import_database ;;
  match db with
  | Some db =>
      _ ←~ set_database "✅ Available" ;;
      _ ←~ set_database_url "✅ Configured" ;;
      name ←~ name_or_default db ;;
      _ ←~ set_database_name name ;;
      _ ←~ set_connection_status "Connected" ;;
      try_with
        (names ←~ call_list_collection_names db ;;
         _ ←~ set_collections (slice_upto names 10) ;;
         set_database "✅ Connected & Working")
        (λ e, set_database
                ("⚠️  Connected but Error: " +:+ utf8_upto 50 (message e)))
  | None => set_database "⚠️  Available but not initialized"
  end.

(** [except ImportError: ... except Exception as e: ...] *)
Definition test_database_except (e : pyexn) : M unit :=
  if is_import_error e then
    set_database "❌ Database module not found (run enable-database first)"
  else set_database ("❌ Error: " +:+ utf8_upto 50 (message e)).

(** ["✅ Set" if os.getenv(name) else "❌ Not Set"] *)
Definition env_flag (name : string) : string :=
  if truthy_opt (getenv name) then "✅ Set" else "❌ Not Set".

Definition test_database_steps : M unit :=
  _ ←~ try_with test_database_try test_database_except ;;
  _ ←~ set_database_url (env_flag "DATABASE_URL") ;;
  set_database_name (env_flag "DATABASE_NAME").

(** The outcome of a request: an exception that leaves the function, or
    the report it returns. *)
Definition test_database : pyexn + Report :=
  match test_database_steps initial with
  | (inr _, r) => inr r
  | (inl e, _) => inl e
  end.

(** The dictionary as it stands when the last statement has run. *)
Definition final_report : Report := (test_database_steps initial).2.

(** [db] was imported, is not [None], and its name could be read. *)
Definition db_reached (db : Db) : Prop :=
  import_db = Imported (Some db) ∧ ∀ e, db_name db ≠ AttributeRaises e.

End Route.

(** A host with a working database of twelve collections, named [shop],
    and only [DATABASE_URL] set. *)
Definition twelve : list string :=
  ["c01"; "c02"; "c03"; "c04"; "c05"; "c06";
   "c07"; "c08"; "c09"; "c10"; "c11"; "c12"].

Definition host_working : Host :=
  {| import_db := Imported (Some (mkDb (Attribute "shop") (inr twelve)));
     getenv := λ name,
       if bool_decide (name = "DATABASE_URL") then Some "mongodb://localhost"
       else None |}.

(** A host whose database refuses to list its collections. *)
Definition host_listing_fails : Host :=
  {| import_db :=
       Imported (Some (mkDb NoAttribute
                         (inl (mkExn false "connection refused"))));
     getenv := λ _, None |}.

End Diag.

(** ** More sample documents *)

Module Samples.

(** An RSS document whose channel has a title and no item. *)
Definition rss_no_item : Element :=
  mkElement "rss" ∅ None
    [ mkElement "channel" ∅ None [ Scenario.leaf "title" (Some "quiet") ] ].

Definition net_no_item (url : string) : result Response :=
  Ok (mkResponse 200 (Xml rss_no_item)).

(** An RSS document whose only item has blanks around every text. *)
Definition padded_everything : Element :=
  mkElement "item" ∅ None
    [ Scenario.leaf "title" (Some "  Markets today ");
      Scenario.leaf "link" (Some " https://example.org/a  ");
      Scenario.leaf "pubDate" (Some " Mon, 01 Jan 2024 00:00:00 GMT ") ].

Definition rss_padded_channel : Element :=
  mkElement "channel" ∅ None [ padded_everything ].

Definition rss_padded : Element :=
  mkElement "rss" ∅ None [ rss_padded_channel ].

Definition net_padded (url : string) : result Response :=
  Ok (mkResponse 200 (Xml rss_padded)).

End Samples.

(** ** Dates of the standard library

    The second part of [parsedate_to_datetime], for fields of the shape
    [DD Mon YYYY HH:MM:SS ZONE] (seconds optional): the month by name,
    two-digit years moved into 1969..2068, the zone by name or as
    [+HHMM], then the checks of the [datetime] constructor. The
    leniencies of the library (the month before the day, commas left on
    a field, dots in the time, signs or blanks inside a number) are not
    modelled: such fields raise here. *)

Module Dates.

(** A [datetime]; [utcoffset] is in seconds east of UTC and is [None]
    for a date without zone. *)
Record date : Type := mkDate {
  year : Z;
  month : Z;
  day : Z;
  hour : Z;
  minute : Z;
  second : Z;
  utcoffset : option Z
}.

Definition digit (c : ascii) : option Z :=
  let n := Z.of_N (N_of_ascii c) in
  if (48 <=? n) && (n <=? 57) then Some (n - 48) else None.

Fixpoint digits_go (acc : Z) (s : string) : option Z :=
  match s with
  | EmptyString => Some acc
  | String c s' =>
      match digit c with
      | Some d => digits_go (10 * acc + d) s'
      | None => None
      end
  end.

(** [int(s)] for a text of decimal digits. *)
Definition digits (s : string) : option Z :=
  match s with
  | EmptyString => None
  | _ => digits_go 0 s
  end.

Definition _monthnames : list string :=
  ["jan"; "feb"; "mar"; "apr"; "may"; "jun"; "jul";
   "aug"; "sep"; "oct"; "nov"; "dec";
   "january"; "february"; "march"; "april"; "may"; "june"; "july";
   "august"; "september"; "october"; "november"; "december"].

Fixpoint index_of (x : string) (l : list string) : option Z :=
  match l with
  | [] => None
  | y :: l' =>
      if String.eqb x y then Some 0 else Z.succ <$> index_of x l'
  end.

(** [_monthnames.index(mm) + 1], and 12 less for a full name. *)
Definition month_number (mm : string) : option Z :=
  (λ i, if 12 <? i + 1 then i + 1 - 12 else i + 1)
    <$> index_of (PyStr.lower mm) _monthnames.

Definition upper_char (c : ascii) : ascii :=
  let n := N_of_ascii c in
  if ((97 <=? n) && (n <=? 122))%N then ascii_of_N (n - 32) else c.

Fixpoint upper (s : string) : string :=
  match s with
  | EmptyString => EmptyString
  | String c s' => String (upper_char c) (upper s')
  end.

Definition _timezones : list (string * Z) :=
  [("UT", 0); ("UTC", 0); ("GMT", 0); ("Z", 0);
   ("AST", -400); ("ADT", -300); ("EST", -500); ("EDT", -400);
   ("CST", -600); ("CDT", -500); ("MST", -700); ("MDT", -600);
   ("PST", -800); ("PDT", -700)].

Fixpoint assoc (x : string) (l : list (string * Z)) : option Z :=
  match l with
  | [] => None
  | (y, v) :: l' => if String.eqb x y then Some v else assoc x l'
  end.

(** [int(tz)] for a sign followed by digits. *)
Definition signed_digits (s : string) : option Z :=
  match s with
  | String "+" s' => digits s'
  | String "-" s' => Z.opp <$> digits s'
  | _ => digits s
  end.

(** The zone as seconds east of UTC; [None] when the zone is unknown or
    is [-0000]. *)
Definition zone_seconds (tz : string) : option Z :=
  let tz := upper tz in
  let tzoffset :=
    match assoc tz _timezones with
    | Some v => Some v
    | None => signed_digits tz
    end in
  match tzoffset with
  | None => None
  | Some v =>
      if (v =? 0) && PyStr.truthy tz
         && (match tz with String "-" _ => true | _ => false end)
      then None
      else if v =? 0 then Some 0
      else
        let a := Z.abs v in
        let secs := (a / 100) * 3600 + (a mod 100) * 60 in
        Some (if v <? 0 then - secs else secs)
  end.

Definition is_leap (y : Z) : bool :=
  (y mod 4 =? 0) && (negb (y mod 100 =? 0) || (y mod 400 =? 0)).

Definition days_in_month (y m : Z) : Z :=
  if m =? 2 then (if is_leap y then 29 else 28)
  else if (m =? 4) || (m =? 6) || (m =? 9) || (m =? 11) then 30
  else 31.

(** The checks of [datetime(...)] and of [timezone(timedelta(...))]. *)
Definition valid (d : date) : bool :=
  (1 <=? year d) && (year d <=? 9999)
  && (1 <=? month d) && (month d <=? 12)
  && (1 <=? day d) && (day d <=? days_in_month (year d) (month d))
  && (0 <=? hour d) && (hour d <? 24)
  && (0 <=? minute d) && (minute d <? 60)
  && (0 <=? second d) && (second d <? 60)
  && match utcoffset d with
     | Some o => (-86400 <? o) && (o <? 86400)
     | None => true
     end.

Definition time_fields (tm : string) : option (Z * Z * Z) :=
  match PyStr.split_on ":" tm with
  | [thh; tmm] =>
      h ← digits thh; m ← digits tmm; Some (h, m, 0)
  | [thh; tmm; tss] =>
      h ← digits thh; m ← digits tmm; s ← digits tss; Some (h, m, s)
  | _ => None
  end.

(** The fields of a date to a [datetime]; every failure is a
    [ValueError]. *)
Definition datetime_of_fields (fields : list string) : result date :=
  match fields with
  | [dd; mm; yy; tm; tz] =>
      match month_number mm, digits dd, digits yy, time_fields tm with
      | Some m, Some d, Some y, Some (h, mi, sec) =>
          let y := if y <? 100 then (if 68 <? y then y + 1900 else y + 2000)
                   else y in
          let dt := mkDate y m d h mi sec (zone_seconds tz) in
          if valid dt then Ok dt else Raise ValueError
      | _, _, _, _ => Raise ValueError
      end
  | _ => Raise ValueError
  end.

Definition digit_char (v : Z) : ascii :=
  ascii_of_N (Z.to_N (48 + v mod 10)).

Definition pad2 (v : Z) : string :=
  String (digit_char (v / 10)) (String (digit_char v) EmptyString).

Definition pad4 (v : Z) : string :=
  String (digit_char (v / 1000)) (String (digit_char (v / 100)) (pad2 v)).

(** [dt.isoformat()] of a date without microseconds. *)
Definition isoformat (d : date) : string :=
  pad4 (year d) +:+ "-" +:+ pad2 (month d) +:+ "-" +:+ pad2 (day d)
  +:+ "T" +:+ pad2 (hour d) +:+ ":" +:+ pad2 (minute d)
  +:+ ":" +:+ pad2 (second d)
  +:+ match utcoffset d with
      | None => ""
      | Some o =>
          let a := Z.abs o in
          (if o <? 0 then "-" else "+")
          +:+ pad2 (a / 3600) +:+ ":" +:+ pad2 (a mod 3600 / 60)
          +:+ (if a mod 60 =? 0 then "" else ":" +:+ pad2 (a mod 60))
      end.

Definition days_before_year (y : Z) : Z :=
  let p := y - 1 in p * 365 + p / 4 - p / 100 + p / 400.

Fixpoint days_before_month_go (y : Z) (m : nat) : Z :=
  match m with
  | O => 0
  | S m' => days_before_month_go y m' + days_in_month y (Z.of_nat m)
  end.

(** The instant of a date with a zone, in seconds since
    1970-01-01T00:00:00 UTC: what two such dates are compared by. *)
Definition instant (d : date) : option Z :=
  (λ o,
     let ordinal := days_before_year (year d)
                    + days_before_month_go (year d) (Z.to_nat (month d - 1))
                    + day d in
     (ordinal - 719163) * 86400
     + hour d * 3600 + minute d * 60 + second d - o)
    <$> utcoffset d.

(** The world with this date type and decoder and the network [net]. *)
Definition world (net : string → result Response) : World :=
  mkWorld date isoformat datetime_of_fields net.

End Dates.

(** ** Sample documents with dates *)

Module DateSamples.

Definition dated_item (l : string) (pub : string) : Element :=
  mkElement "item" ∅ None
    [ Scenario.leaf "link" (Some l); Scenario.leaf "pubDate" (Some pub) ].

Definition undated_item (l : string) : Element :=
  mkElement "item" ∅ None [ Scenario.leaf "link" (Some l) ].

Definition rss_of (its : list Element) : Element :=
  mkElement "rss" ∅ None [ mkElement "channel" ∅ None its ].

(** Two items whose dates carry different UTC offsets: the first is
    16:00 UTC, the second 20:00 UTC of the same day. *)
Definition rss_offsets : Element :=
  rss_of [ dated_item "early" "Tue, 02 Jan 2024 01:00:00 +0900";
           dated_item "late" "Mon, 01 Jan 2024 20:00:00 +0000" ].

Definition net_offsets (url : string) : result Response :=
  Ok (mkResponse 200 (Xml rss_offsets)).

(** Items with and without a date, in turn. *)
Definition rss_mixed : Element :=
  rss_of [ undated_item "u1";
           dated_item "d1" "Mon, 01 Jan 2024 20:00:00 +0000";
           undated_item "u2";
           dated_item "d2" "Fri, 05 Jan 2024 08:00:00 +0000" ].

Definition net_mixed (url : string) : result Response :=
  Ok (mkResponse 200 (Xml rss_mixed)).

(** The three-item feed served with status 300. *)
Definition net_status_300 (url : string) : result Response :=
  Ok (mkResponse 300 (Xml Scenario.rss3)).

End DateSamples.

(** * Properties *)

(** ** Slices *)

Section SliceFacts.
Context {A : Type}.
Implicit Types (l : list A) (k : Z).

Lemma slice_upto_nonneg l k :
  0 ≤ k → slice_upto l k = take (Z.to_nat k) l.
Proof.
  intros Hk. unfold slice_upto.
  destruct (Z.ltb_spec k 0) as [?|_]; [lia|].
  destruct (Z.le_ge_cases k (Z.of_nat (length l))) as [Hle|Hge].
  - by rewrite Z.min_l.
  - rewrite Z.min_r, Nat2Z.id by done.
    rewrite take_ge by lia. by rewrite take_ge by lia.
Qed.

Lemma slice_upto_prefix l k : slice_upto l k `prefix_of` l.
Proof. unfold slice_upto. apply prefix_take. Qed.

Lemma slice_upto_sublist l k : slice_upto l k `sublist_of` l.
Proof. unfold slice_upto. apply sublist_take. Qed.

Lemma slice_upto_length l k :
  0 ≤ k → Z.of_nat (length (slice_upto l k)) = Z.min k (Z.of_nat (length l)).
Proof.
  intros Hk. rewrite slice_upto_nonneg, length_take by done. lia.
Qed.

Lemma slice_upto_fmap {B : Type} (f : A → B) l k :
  slice_upto (f <$> l) k = f <$> slice_upto l k.
Proof. unfold slice_upto. by rewrite length_fmap, fmap_take. Qed.
End SliceFacts.

(** ** The stable descending sort *)

Section SortFacts.
Context {A : Type} (key : A → string).
Implicit Types (x y : A) (l : list A).

Lemma string_ltb_irrefl (s : string) : String.ltb s s = false.
Proof.
  unfold String.ltb.
  assert (String.compare s s = Eq) as ->; [|done].
  induction s as [|c s IH]; simpl; [done|].
  unfold Ascii.compare. by rewrite N.compare_refl.
Qed.

Lemma string_ltb_le (s t : string) : String.ltb s t = true → String.le s t.
Proof.
  unfold String.ltb, String.le, String.leb.
  by destruct (String.compare s t).
Qed.

Lemma string_ltb_false_le (s t : string) :
  String.ltb s t = false → String.le t s.
Proof.
  unfold String.ltb, String.le, String.leb.
  rewrite (String.compare_antisym s t).
  by destruct (String.compare t s).
Qed.

Lemma string_ltb_empty_r (s : string) : String.ltb s "" = false.
Proof. by destruct s. Qed.

Lemma insert_desc_perm x l : insert_desc key x l ≡ₚ x :: l.
Proof.
  induction l as [|y l IH]; simpl; [done|].
  destruct (String.ltb (key x) (key y)); [|done].
  rewrite IH. apply Permutation_swap.
Qed.

Lemma sort_reverse_perm l : sort_reverse key l ≡ₚ l.
Proof.
  induction l as [|x l IH]; simpl; [done|].
  by rewrite insert_desc_perm, IH.
Qed.

Lemma insert_desc_hdrel a x l :
  (key_ge key) a x → HdRel (key_ge key) a l → HdRel (key_ge key) a (insert_desc key x l).
Proof.
  intros Hax Hal. destruct l as [|y l]; simpl; [by constructor|].
  destruct (String.ltb (key x) (key y)); constructor; [|done].
  by inversion Hal.
Qed.

Lemma insert_desc_sorted x l :
  Sorted (key_ge key) l → Sorted (key_ge key) (insert_desc key x l).
Proof.
  induction 1 as [|y l Hl IH Hhd]; simpl; [by repeat constructor|].
  destruct (String.ltb (key x) (key y)) eqn:Hlt.
  - constructor; [done|].
    apply insert_desc_hdrel; [|done]. by apply string_ltb_le.
  - repeat constructor; [done..|]. by apply string_ltb_false_le.
Qed.

Lemma sort_reverse_sorted l : Sorted (key_ge key) (sort_reverse key l).
Proof.
  induction l as [|x l IH]; simpl; [constructor|].
  by apply insert_desc_sorted.
Qed.

(** Elements of one key keep their order: the sort is stable. *)
Lemma insert_desc_filter (k : string) x l :
  filter (λ y, key y = k) (insert_desc key x l)
  = filter (λ y, key y = k) (x :: l).
Proof.
  induction l as [|y l IH]; simpl; [done|].
  destruct (String.ltb (key x) (key y)) eqn:Hlt; [|done].
  assert (key x ≠ key y) as Hne.
  { intros Heq. rewrite Heq, string_ltb_irrefl in Hlt. done. }
  rewrite filter_cons, IH, !filter_cons.
  repeat case_decide; congruence.
Qed.

Lemma sort_reverse_stable (k : string) l :
  filter (λ y, key y = k) (sort_reverse key l) = filter (λ y, key y = k) l.
Proof.
  induction l as [|x l IH]; simpl; [done|].
  by rewrite insert_desc_filter, !filter_cons, IH.
Qed.

Lemma Sorted_adjacent (R : relation A) l i a b :
  Sorted R l → l !! i = Some a → l !! S i = Some b → R a b.
Proof.
  intros Hs. revert i. induction Hs as [|x l Hl IH Hhd]; intros i Ha Hb.
  - done.
  - destruct i as [|i]; simpl in *.
    + simplify_eq. destruct Hhd; simplify_eq/=. done.
    + by eapply IH.
Qed.

Lemma Sorted_prefix (R : relation A) l1 l2 :
  l1 `prefix_of` l2 → Sorted R l2 → Sorted R l1.
Proof.
  intros [l' ->]. induction l1 as [|x l1 IH]; simpl; [constructor|].
  intros Hs. apply Sorted_inv in Hs as [Hs Hhd].
  constructor; [by apply IH|].
  destruct l1; simpl in *; [constructor|].
  inversion Hhd. by constructor.
Qed.

Local Instance key_ge_trans : Transitive (key_ge key).
Proof. intros a b c Hab Hbc. unfold key_ge in *. by etrans. Qed.

Lemma filter_key_nil l : (∀ k, filter (λ y, key y = k) l = []) → l = [].
Proof.
  destruct l as [|x l]; [done|]. intros Hf. specialize (Hf (key x)).
  by rewrite filter_cons, decide_True in Hf.
Qed.

Lemma sorted_head_max x y l :
  Sorted (key_ge key) (y :: l) → x ∈ y :: l → String.le (key x) (key y).
Proof.
  intros Hs%Sorted_StronglySorted; [|apply _].
  apply StronglySorted_inv in Hs as [_ Hall].
  intros [->|Hx]%elem_of_cons; [done|].
  rewrite Forall_forall in Hall. by apply Hall.
Qed.

(** A descending arrangement is determined by the order it gives to
    the elements of each key: two stable descending sorts of one list
    agree. *)
Lemma stable_sorted_eq l1 l2 :
  Sorted (key_ge key) l1 → Sorted (key_ge key) l2 →
  (∀ k, filter (λ y, key y = k) l1 = filter (λ y, key y = k) l2) →
  l1 = l2.
Proof.
  revert l2. induction l1 as [|x l1 IH]; intros l2 Hs1 Hs2 Hf.
  - symmetry. apply filter_key_nil. intros k. by rewrite <-Hf.
  - destruct l2 as [|y l2].
    { apply filter_key_nil. intros k. by rewrite Hf. }
    assert (key x = key y) as Hxy.
    { apply (anti_symm String.le).
      - apply (sorted_head_max x y l2); [done|].
        assert (x ∈ filter (λ z, key z = key x) (y :: l2)) as Hx.
        { rewrite <-Hf, filter_cons, decide_True by done. left. }
        by apply list_elem_of_filter in Hx as [_ ?].
      - apply (sorted_head_max y x l1); [done|].
        assert (y ∈ filter (λ z, key z = key y) (x :: l1)) as Hy.
        { rewrite Hf, filter_cons, decide_True by done. left. }
        by apply list_elem_of_filter in Hy as [_ ?]. }
    pose proof (Hf (key x)) as Hhead.
    rewrite !filter_cons, decide_True in Hhead by done.
    rewrite decide_True in Hhead by done.
    injection Hhead as -> Htail. f_equal.
    apply IH; [by eapply Sorted_inv|by eapply Sorted_inv|].
    intros k. destruct (decide (key y = k)) as [<-|Hk]; [done|].
    specialize (Hf k). by rewrite !filter_cons, !decide_False in Hf by done.
Qed.

Lemma sort_reverse_unique l l' :
  Sorted (key_ge key) l' →
  (∀ k, filter (λ y, key y = k) l' = filter (λ y, key y = k) l) →
  l' = sort_reverse key l.
Proof.
  intros Hs Hf. apply stable_sorted_eq; [done|apply sort_reverse_sorted|].
  intros k. by rewrite sort_reverse_stable.
Qed.

Lemma submseteq_NoDup_fmap {B : Type} (f : A → B) l1 l2 :
  l1 ⊆+ l2 → NoDup (f <$> l2) → NoDup (f <$> l1).
Proof.
  intros (l & Hsub & Hperm)%submseteq_sublist_l Hnd.
  rewrite <-Hperm in Hnd.
  eapply sublist_NoDup; [exact Hnd|]. by apply fmap_sublist.
Qed.

Lemma sublist_filter_mono (P : A → Prop) `{!∀ x, Decision (P x)} l1 l2 :
  l1 `sublist_of` l2 → filter P l1 `sublist_of` filter P l2.
Proof.
  induction 1 as [|x l1 l2 _ IH|x l1 l2 _ IH]; [done|..];
    rewrite ?filter_cons; repeat case_decide;
    try done; by constructor.
Qed.

(** Two elements of equal key that appear in this order after the sort
    appeared in this order before it. *)
Lemma sort_reverse_keeps_order l a b :
  key a = key b →
  [a; b] `sublist_of` sort_reverse key l → [a; b] `sublist_of` l.
Proof.
  intros Hab Hsub.
  apply (sublist_filter_mono (λ y, key y = key a)) in Hsub.
  rewrite sort_reverse_stable in Hsub.
  rewrite !filter_cons, filter_nil in Hsub.
  rewrite decide_True in Hsub by done. rewrite decide_True in Hsub by done.
  etrans; [exact Hsub|]. apply sublist_filter.
Qed.
End SortFacts.

(** ** The deduplication loop *)

Section DedupFacts.
Implicit Types (l collected unique : list FeedItem) (it : FeedItem).
Implicit Types (seen : gset string) (k : string).

Lemma dedup_state_snoc collected it :
  dedup_state (collected ++ [it]) = dedup_step (dedup_state collected) it.
Proof. unfold dedup_state. by rewrite foldl_app. Qed.

Lemma truthy_opt_true (x : option string) :
  truthy_opt x = true ↔ ∃ k, x = Some k ∧ k ≠ "".
Proof.
  destruct x as [[|c s]|]; simpl; split; try done.
  - intros (k & ? & ?). by simplify_eq.
  - eauto.
  - intros (k & ? & ?). done.
Qed.

Lemma truthy_opt_false (x : option string) :
  truthy_opt x = false ↔ x = None ∨ x = Some "".
Proof. destruct x as [[|c s]|]; simpl; naive_solver. Qed.

(** [seen] holds exactly the links of the items kept so far. *)
Lemma dedup_state_seen collected k :
  k ∈ (dedup_state collected).1 ↔ Some k ∈ link <$> (dedup_state collected).2.
Proof.
  induction collected as [|it collected IH] using rev_ind.
  - cbn. rewrite elem_of_nil. set_solver.
  - rewrite dedup_state_snoc.
    destruct (dedup_state collected) as [seen unique]; simpl in *.
    destruct (truthy_opt (link it)) eqn:Hl; simpl; [|done].
    case_bool_decide; simpl; [done|].
    apply truthy_opt_true in Hl as (k' & Hk' & _). rewrite Hk'. simpl.
    rewrite fmap_app, elem_of_app, elem_of_union, elem_of_singleton, <-IH.
    simpl. rewrite list_elem_of_singleton, Hk'. naive_solver.
Qed.

(** The loop, one item at a time. *)
Lemma dedup_by_link_snoc collected it :
  dedup_by_link (collected ++ [it]) =
    if bool_decide (link it = None ∨ link it = Some "") then
      dedup_by_link collected
    else if bool_decide (link it ∈ link <$> dedup_by_link collected) then
      dedup_by_link collected
    else dedup_by_link collected ++ [it].
Proof.
  unfold dedup_by_link. rewrite dedup_state_snoc.
  pose proof (dedup_state_seen collected) as Hseen.
  destruct (dedup_state collected) as [seen unique]; simpl in *.
  destruct (truthy_opt (link it)) eqn:Hl; simpl.
  - apply truthy_opt_true in Hl as (k & Hk & Hne).
    rewrite Hk. simpl.
    rewrite (bool_decide_false (_ ∨ _)) by (intros [?|?]; congruence).
    rewrite (bool_decide_ext _ _ (Hseen k)).
    by case_bool_decide.
  - apply truthy_opt_false in Hl. by rewrite bool_decide_true.
Qed.

Lemma dedup_by_link_nil : dedup_by_link [] = [].
Proof. done. Qed.

Lemma dedup_by_link_sublist collected :
  dedup_by_link collected `sublist_of` collected.
Proof.
  induction collected as [|it collected IH] using rev_ind; [done|].
  rewrite dedup_by_link_snoc.
  repeat case_bool_decide.
  - by apply sublist_inserts_r.
  - by apply sublist_inserts_r.
  - by apply sublist_app.
Qed.

Lemma dedup_by_link_truthy collected it :
  it ∈ dedup_by_link collected → ∃ k, link it = Some k ∧ k ≠ "".
Proof.
  induction collected as [|it' collected IH] using rev_ind.
  - rewrite dedup_by_link_nil. by intros ?%elem_of_nil.
  - rewrite dedup_by_link_snoc.
    case_bool_decide as Hl; [done|].
    case_bool_decide; [done|].
    rewrite elem_of_app, list_elem_of_singleton. intros [?| ->]; [auto|].
    apply truthy_opt_true.
    destruct (truthy_opt (link it')) eqn:Ht; [done|].
    by apply truthy_opt_false in Ht.
Qed.

Lemma dedup_by_link_NoDup collected :
  NoDup (link <$> dedup_by_link collected).
Proof.
  induction collected as [|it collected IH] using rev_ind.
  - constructor.
  - rewrite dedup_by_link_snoc.
    repeat case_bool_decide; try done.
    rewrite fmap_app. apply NoDup_app. split_and!; [done| |].
    + intros o Ho. simpl. rewrite list_elem_of_singleton.
      by intros ->.
    + simpl. apply NoDup_singleton.
Qed.

(** Of the items that carry one non-empty link, the first is kept and
    no other. *)
Lemma dedup_by_link_first collected k :
  k ≠ "" →
  filter (λ it, link it = Some k) (dedup_by_link collected)
  = take 1 (filter (λ it, link it = Some k) collected).
Proof.
  intros Hk.
  induction collected as [|it collected IH] using rev_ind; [done|].
  rewrite dedup_by_link_snoc, (filter_app _ collected), filter_cons, filter_nil.
  assert (Some k ∈ link <$> dedup_by_link collected
          ↔ filter (λ it, link it = Some k) collected ≠ []) as Hin.
  { rewrite list_elem_of_fmap. split.
    - intros (it' & Heq & Hit') Hnil.
      assert (it' ∈ filter (λ it, link it = Some k) (dedup_by_link collected))
        as Hf by (by apply list_elem_of_filter).
      rewrite IH, Hnil in Hf. simpl in Hf. by apply elem_of_nil in Hf.
    - intros Hne.
      destruct (filter (λ it, link it = Some k) (dedup_by_link collected))
        as [|it' ?] eqn:Hf.
      + rewrite IH in Hf. by destruct (filter _ collected).
      + exists it'.
        assert (it' ∈ filter (λ it, link it = Some k) (dedup_by_link collected))
          as Hit' by (rewrite Hf; left).
        apply list_elem_of_filter in Hit' as [? ?]. by split. }
  destruct (decide (link it = Some k)) as [Hit|Hit].
  - rewrite (bool_decide_false (_ ∨ _))
      by (rewrite Hit; intros [?|?]; congruence).
    rewrite Hit. case_bool_decide as Hseen.
    + apply Hin in Hseen. rewrite IH. by destruct (filter _ collected).
    + rewrite filter_app, filter_cons, filter_nil, decide_True by done.
      rewrite IH. destruct (filter _ collected) eqn:Hf; [done|].
      exfalso. apply Hseen, Hin. done.
  - rewrite app_nil_r, <-IH.
    repeat case_bool_decide; try done.
    rewrite filter_app, filter_cons, filter_nil, decide_False by done.
    by rewrite app_nil_r.
Qed.
End DedupFacts.

(** ** Loops that may raise *)

Section ForAppendFacts.
Context {A B : Type} (body : A → result B).

Lemma for_append_Ok l bs :
  for_append body l = Ok bs ↔ Forall2 (λ a b, body a = Ok b) l bs.
Proof.
  revert bs. induction l as [|a l IH]; intros bs; simpl.
  - split; [intros [= <-]; constructor|by inversion 1].
  - split.
    + destruct (body a) as [b|e] eqn:Hb; simpl; [|done].
      destruct (for_append body l) as [bs'|e] eqn:Hl; simpl; [|done].
      intros [= <-]. constructor; [done|]. by apply IH.
    + inversion 1 as [|? b ? bs' Hb Hl]; subst.
      apply IH in Hl. by rewrite Hb, Hl.
Qed.

Lemma for_append_Raise l a :
  a ∈ l → (∃ e, body a = Raise e) → ∃ e, for_append body l = Raise e.
Proof.
  intros Hin [e He]. induction Hin as [a l|a a' l _ IH]; simpl.
  - rewrite He. eauto.
  - destruct (body a'); simpl; [|eauto].
    destruct IH as [e' ->]; [done|]. simpl. eauto.
Qed.
End ForAppendFacts.

(** ** The feed parser and the aggregator *)

Section ProgramFacts.
Context {world : World}.

Implicit Types (url : string) (limit : Z) (it : FeedItem).

Lemma raise_for_status_Ok resp :
  ¬ (400 ≤ status_code resp < 600) → raise_for_status resp = Ok tt.
Proof.
  intros Hs. unfold raise_for_status.
  destruct (Z.leb_spec 400 (status_code resp));
    destruct (Z.ltb_spec (status_code resp) 600); simpl; try done.
  lia.
Qed.

Lemma raise_for_status_Raise resp :
  400 ≤ status_code resp < 600 →
  raise_for_status resp = Raise (HTTPError (status_code resp)).
Proof.
  intros Hs. unfold raise_for_status.
  destruct (Z.leb_spec 400 (status_code resp));
    destruct (Z.ltb_spec (status_code resp) 600); simpl; try done; lia.
Qed.

Lemma fetch_rss_feed_body_serves url limit root :
  serves url root →
  fetch_rss_feed_body url limit =
    match ET.find "channel" root with
    | Some channel =>
        Ok (rss_item url <$> slice_upto (ET.findall "item" channel) limit)
    | None =>
        for_append (atom_entry url)
          (slice_upto (ET.findall (ET.qname atom_ns "entry") root) limit)
    end.
Proof.
  intros (resp & Hget & Hstatus & Hxml).
  unfold fetch_rss_feed_body.
  rewrite Hget. simpl. rewrite raise_for_status_Ok by done. simpl.
  by rewrite Hxml.
Qed.

Lemma fetch_rss_feed_body_Ok url limit its :
  fetch_rss_feed_body url limit = Ok its → ∃ root, serves url root.
Proof.
  unfold fetch_rss_feed_body, serves.
  destruct (requests_get url) as [resp|e] eqn:Hget; simpl; [|done].
  unfold raise_for_status.
  destruct ((400 <=? status_code resp) && (status_code resp <? 600))
    eqn:Hs; simpl; [done|].
  destruct (content resp) as [|root] eqn:Hc; simpl; [done|].
  intros _. exists root, resp. split_and!; [done| |done].
  intros [??]. apply andb_false_iff in Hs as [?%Z.leb_gt|?%Z.ltb_ge]; lia.
Qed.

(** Where the items of a fetched feed come from. *)
Lemma fetch_rss_feed_elem_of url limit it :
  it ∈ fetch_rss_feed url limit →
  ∃ root, serves url root ∧
    match ET.find "channel" root with
    | Some channel =>
        ∃ item, item ∈ ET.findall "item" channel ∧ it = rss_item url item
    | None =>
        ∃ entry, entry ∈ ET.findall (ET.qname atom_ns "entry") root
                 ∧ atom_entry url entry = Ok it
    end.
Proof.
  unfold fetch_rss_feed, try_except.
  destruct (fetch_rss_feed_body url limit) as [its|e] eqn:Hbody;
    [|by intros ?%elem_of_nil].
  intros Hit.
  destruct (fetch_rss_feed_body_Ok _ _ _ Hbody) as [root Hroot].
  exists root. split; [done|].
  rewrite (fetch_rss_feed_body_serves _ _ _ Hroot) in Hbody.
  destruct (ET.find "channel" root) as [channel|].
  - injection Hbody as <-.
    apply list_elem_of_fmap in Hit as (item & -> & Hitem).
    exists item. split; [|done].
    eapply elem_of_sublist; [done|apply slice_upto_sublist].
  - apply for_append_Ok in Hbody.
    apply list_elem_of_lookup in Hit as [i Hi].
    destruct (Forall2_lookup_r _ _ _ _ _ Hbody Hi) as (entry & He & Hok).
    exists entry. split; [|done].
    eapply elem_of_sublist; [|apply slice_upto_sublist].
    by eapply list_elem_of_lookup_2.
Qed.

Lemma collect_bind urls limit :
  collect urls limit = urls ≫= (λ u, fetch_rss_feed u limit).
Proof.
  unfold collect.
  assert (∀ acc, foldl (λ collected u, collected ++ fetch_rss_feed u limit)
                   acc urls
                 = acc ++ (urls ≫= (λ u, fetch_rss_feed u limit))) as H.
  { induction urls as [|u urls IH]; intros acc; simpl.
    - by rewrite app_nil_r.
    - by rewrite IH, app_assoc. }
  by rewrite H.
Qed.

Lemma aggregate_items urls limit :
  items (aggregate urls limit)
  = slice_upto (sort_reverse sort_key (dedup_by_link (collect urls limit)))
      limit.
Proof. done. Qed.

Lemma aggregate_items_submseteq urls limit :
  items (aggregate urls limit) ⊆+ dedup_by_link (collect urls limit).
Proof.
  rewrite aggregate_items.
  etrans; [apply sublist_submseteq, slice_upto_sublist|].
  by rewrite sort_reverse_perm.
Qed.

End ProgramFacts.

(** ** The item builders *)

Section ItemFacts.
Context {world : World}.
Implicit Types (url : string) (item entry : Element).

(** In the RSS branch an element that is missing, or present without
    text, gives the empty string. *)
Lemma rss_text_default (t : string) item :
  ET.findtext t item = None ∨ ET.findtext t item = Some "" →
  PyStr.strip (or_empty (ET.findtext t item)) = "".
Proof. by intros [-> | ->]. Qed.

Lemma rss_item_fields url item :
  title (rss_item url item)
    = PyStr.strip (or_empty (ET.findtext "title" item))
  ∧ link (rss_item url item)
    = Some (PyStr.strip (or_empty (ET.findtext "link" item)))
  ∧ published (rss_item url item)
    = Some (PyStr.strip (or_empty (ET.findtext "pubDate" item)))
  ∧ source (rss_item url item) = url.
Proof. done. Qed.

Lemma atom_entry_Ok url entry it :
  atom_entry url entry = Ok it →
  link it = match ET.find (ET.qname atom_ns "link") entry with
            | Some el => ET.get "href" el
            | None => Some ""
            end
  ∧ published it = match ET.find (ET.qname atom_ns "updated") entry with
                   | Some el => text el
                   | None => Some ""
                   end
  ∧ source it = url.
Proof.
  unfold atom_entry.
  destruct (ET.find (ET.qname atom_ns "title") entry) as [el|]; simpl.
  - destruct (text el); simpl; [|done]. by intros [= <-].
  - by intros [= <-].
Qed.

Lemma atom_entry_has_title_text url entry :
  has_title_text entry ↔ ∃ it, atom_entry url entry = Ok it.
Proof.
  unfold has_title_text, atom_entry.
  destruct (ET.find (ET.qname atom_ns "title") entry) as [el|]; simpl.
  - destruct (text el); simpl; split; eauto.
    + by intros [??].
    + by intros [??].
  - split; eauto.
Qed.
(** One Atom entry with a title element without text, among those the
    loop reads, empties the whole feed. *)
Lemma atom_unreadable_title_empties url limit (root : Element) entry :
  serves url root → ET.find "channel" root = None →
  entry ∈ slice_upto (ET.findall (ET.qname atom_ns "entry") root) limit →
  ¬ has_title_text entry →
  fetch_rss_feed url limit = [].
Proof.
  intros Hroot Hatom Hin Htitle. unfold fetch_rss_feed.
  rewrite (fetch_rss_feed_body_serves _ _ _ Hroot), Hatom.
  destruct (for_append_Raise (atom_entry url) _ entry Hin) as [e ->]; [|done].
  destruct (atom_entry url entry) as [it|e] eqn:Hentry; [|by eauto].
  destruct Htitle. apply (atom_entry_has_title_text url). by exists it.
Qed.
End ItemFacts.

(** * The claims *)

(** C1. Feed A (RSS) has one item with link [x] dated
    [Mon, 01 Jan 2024 00:00:00 GMT]; feed B (Atom) has entries with links
    [x] and [y] updated [2024-01-02T00:00:00Z] and
    [2024-01-03T00:00:00Z]. With limit 9 the program returns two items,
    but in the order [x], [y]: the Atom dates are not RFC 2822 dates, so
    both entries of feed B get no timestamp and [y] sorts after the item
    of feed A, whatever the date of feed A decodes to. The same holds for
    the configured list of feeds when the third feed is unreachable. *)
Theorem scenario_returns_x_before_y (w : World) :
  let w' := with_net w Scenario.net in
  let expected :=
    [ {| title := "";
         link := Some "x";
         published := Some "Mon, 01 Jan 2024 00:00:00 GMT";
         published_ts :=
           @isoformat w'
             <$> @parse_date w' (Some "Mon, 01 Jan 2024 00:00:00 GMT");
         source := Scenario.urlA |};
      {| title := "";
         link := Some "y";
         published := Some "2024-01-03T00:00:00Z";
         published_ts := None;
         source := Scenario.urlB |} ] in
  items (@aggregate w' [Scenario.urlA; Scenario.urlB] 9) = expected
  ∧ items (@get_live_news w' 9) = expected
  ∧ link <$> expected = [Some "x"; Some "y"].
Proof.
  intros w' expected.
  assert (@fetch_rss_feed w' Scenario.urlA 9 = take 1 expected) as HA
    by (vm_compute; reflexivity).
  assert (@fetch_rss_feed w' Scenario.urlB 9 =
            [ mkFeedItem "" (Some "x") (Some "2024-01-02T00:00:00Z") None
                Scenario.urlB;
              mkFeedItem "" (Some "y") (Some "2024-01-03T00:00:00Z") None
                Scenario.urlB ]) as HB
    by (vm_compute; reflexivity).
  assert (@fetch_rss_feed w' "https://www.edweek.org/feeds/index.rss" 9 = [])
    as HC by (vm_compute; reflexivity).
  assert (∀ l, l = take 1 expected ++ [ mkFeedItem "" (Some "x")
                      (Some "2024-01-02T00:00:00Z") None Scenario.urlB;
                    mkFeedItem "" (Some "y") (Some "2024-01-03T00:00:00Z")
                      None Scenario.urlB ] →
               slice_upto (sort_reverse sort_key (dedup_by_link l)) 9
               = expected) as Hrun.
  { intros l ->. subst expected. cbn [take app].
    generalize (@isoformat w'
      <$> @parse_date w' (Some "Mon, 01 Jan 2024 00:00:00 GMT")).
    intros ts. vm_compute dedup_by_link.
    cbn [sort_reverse insert_desc].
    change (sort_key (mkFeedItem "" (Some "y") (Some "2024-01-03T00:00:00Z")
                        None _)) with "".
    by rewrite string_ltb_empty_r. }
  split_and!; [| |done].
  - rewrite aggregate_items, collect_bind. apply Hrun.
    cbn [mbind list_bind]. by rewrite HA, HB, app_nil_r.
  - unfold get_live_news, feeds. rewrite aggregate_items, collect_bind.
    apply Hrun. cbn [mbind list_bind].
    change "https://www.nasdaq.com/feed/rssoutbound?category=Investing"
      with Scenario.urlA.
    change "https://www.marketwatch.com/feeds/topstories"
      with Scenario.urlB.
    by rewrite HA, HB, HC, !app_nil_r.
Qed.

(** C2. An Atom feed of two entries, the second with a title element
    that has no text: reading the title raises inside the routine, and
    the routine returns no item at all, the first entry included. With
    limit 1 the second entry is never read and the first one is
    returned. *)
Theorem atom_empty_title_drops_feed (w : World) (url : string) :
  let w' := with_net w Scenario.net_empty_title in
  length (ET.findall (Scenario.atom "entry") Scenario.atom_empty_title)
    = 2%nat
  ∧ @fetch_rss_feed w' url 9 = []
  ∧ title <$> @fetch_rss_feed w' url 1 = ["first"].
Proof. intros w'. split_and!; by vm_compute. Qed.

Section Claims.
Context {world : World}.
Implicit Types (url : string) (urls : list string) (limit k : Z).
Implicit Types (it a b : FeedItem).

(** C3, amended. Whatever raises an exception derived from [Exception]
    while a feed is fetched and parsed (the request raises, a timeout
    or a refused connection included; the status is from 400 to 599,
    which [raise_for_status] turns into an exception; the body is not
    XML; any other such exception inside the routine), [fetch_rss_feed]
    returns the empty list: the exception does not reach the
    aggregator. *)
Theorem fetch_rss_feed_failure_empty url limit :
  fetch_failure url limit → fetch_rss_feed url limit = [].
Proof.
  unfold fetch_rss_feed, try_except.
  intros [e Hget|resp Hget Hstatus|resp Hget Hbody|e Hraise].
  - unfold fetch_rss_feed_body. by rewrite Hget.
  - unfold fetch_rss_feed_body. rewrite Hget. simpl.
    by rewrite raise_for_status_Raise.
  - unfold fetch_rss_feed_body. rewrite Hget. simpl.
    destruct (raise_for_status resp) as [[]|]; simpl; [|done].
    by rewrite Hbody.
  - by rewrite Hraise.
Qed.

(** C4. Deduplication is one pass over the concatenated items: an item
    whose link is absent or empty is skipped, an item whose link is
    the link of an item kept earlier is skipped, any other item is
    kept. Hence, of the items that share one non-empty link, exactly
    the first in source order is in the result. *)
Theorem dedup_by_link_single_pass (collected : list FeedItem) it
    (k : string) :
  k ≠ "" →
  dedup_by_link [] = []
  ∧ dedup_by_link (collected ++ [it]) =
      (if bool_decide (link it = None ∨ link it = Some "") then
         dedup_by_link collected
       else if bool_decide (link it ∈ link <$> dedup_by_link collected) then
         dedup_by_link collected
       else dedup_by_link collected ++ [it])
  ∧ filter (λ x, link x = Some k) (dedup_by_link collected)
    = take 1 (filter (λ x, link x = Some k) collected).
Proof.
  intros Hk. split_and!.
  - apply dedup_by_link_nil.
  - apply dedup_by_link_snoc.
  - by apply dedup_by_link_first.
Qed.

Lemma sort_key_default (x : FeedItem) :
  sort_key x = default "" (published_ts x).
Proof. unfold sort_key. by destruct (published_ts x) as [[|??]|]. Qed.

Lemma key_ge_sort_key (a b : FeedItem) :
  key_ge sort_key a b
  ↔ String.le (default "" (published_ts b)) (default "" (published_ts a)).
Proof. unfold key_ge. by rewrite !sort_key_default. Qed.

(** C5, amended. In the final output the timestamp text of every item
    (its [published_ts], an absent one read as the empty string) is at
    least the timestamp text of the item that follows it, in the
    code-point order of strings, so that an item without timestamp is
    below every other; and two items of equal timestamp text stand in
    the order they had after deduplication. *)
Theorem aggregate_sorted_stable urls limit :
  let out := items (aggregate urls limit) in
  let ts := λ x : FeedItem, default "" (published_ts x) in
  (∀ (i : nat) a b,
      out !! i = Some a → out !! S i = Some b → String.le (ts b) (ts a))
  ∧ (∀ a, published_ts a = None → ∀ b, String.le (ts a) (ts b))
  ∧ (∀ a b,
      ts a = ts b →
      [a; b] `sublist_of` out →
      [a; b] `sublist_of` dedup_by_link (collect urls limit)).
Proof.
  intros out ts. subst out ts. rewrite aggregate_items. split_and!.
  - intros i a b Ha Hb. apply key_ge_sort_key.
    eapply (Sorted_adjacent (key_ge sort_key)); [|exact Ha|exact Hb].
    eapply Sorted_prefix; [apply slice_upto_prefix|].
    apply sort_reverse_sorted.
  - intros a Ha b. rewrite Ha. simpl.
    by destruct (default "" (published_ts b)).
  - intros a b Hab Hsub.
    apply (sort_reverse_keeps_order sort_key);
      [by rewrite !sort_key_default|].
    etrans; [exact Hsub|]. apply slice_upto_sublist.
Qed.

(** C6, amended. For every requested limit that is not negative (9
    when the parameter is left out) the response has at most that many
    items: they are the first [limit] items of the deduplicated and
    sorted list, and [count] is their number. *)
Theorem api_news_length_le_limit (limit : option Z) :
  let n := default default_limit limit in
  0 ≤ n →
  Z.of_nat (length (items (api_news limit))) ≤ n
  ∧ items (api_news limit)
    = take (Z.to_nat n)
        (sort_reverse sort_key (dedup_by_link (collect feeds n)))
  ∧ count (api_news limit) = Z.of_nat (length (items (api_news limit)))
  ∧ default_limit = 9.
Proof.
  intros n Hn. unfold api_news, get_live_news. fold n.
  rewrite aggregate_items. split_and!; try done.
  - rewrite slice_upto_length by done. lia.
  - by apply slice_upto_nonneg.
Qed.

(** C7, amended. For a feed that is served as a document with [N]
    items or entries and a limit [k] that is not negative, the parser
    returns the items built from the first [min k N] elements, in
    document order: always for RSS, and for Atom when the title of
    each of these entries can be read. *)
Theorem parser_first_items url k (root : Element) :
  0 ≤ k → serves url root →
  match ET.find "channel" root with
  | Some channel =>
      let elems := ET.findall "item" channel in
      let n := Z.to_nat (Z.min k (Z.of_nat (length elems))) in
      fetch_rss_feed url k = rss_item url <$> take n elems
  | None =>
      let elems := ET.findall (ET.qname atom_ns "entry") root in
      let n := Z.to_nat (Z.min k (Z.of_nat (length elems))) in
      Forall has_title_text (take n elems) →
      Forall2 (λ entry it, atom_entry url entry = Ok it)
        (take n elems) (fetch_rss_feed url k)
  end.
Proof.
  intros Hk Hroot.
  assert (∀ (l : list Element),
    slice_upto l k = take (Z.to_nat (Z.min k (Z.of_nat (length l)))) l)
    as Hslice.
  { intros l. rewrite slice_upto_nonneg by done.
    destruct (Z.le_ge_cases k (Z.of_nat (length l))).
    - by rewrite Z.min_l.
    - rewrite Z.min_r, Nat2Z.id by done.
      rewrite take_ge by lia. by rewrite take_ge by lia. }
  unfold fetch_rss_feed.
  rewrite (fetch_rss_feed_body_serves _ _ _ Hroot).
  destruct (ET.find "channel" root) as [channel|]; simpl.
  - by rewrite Hslice.
  - rewrite Hslice. intros Htitles.
    destruct (for_append (atom_entry url) _) as [its|e] eqn:Hloop; simpl.
    + by apply for_append_Ok.
    + exfalso. revert Hloop Htitles.
      generalize (take (Z.to_nat
        (Z.min k (Z.of_nat (length
           (ET.findall (ET.qname atom_ns "entry") root)))))
        (ET.findall (ET.qname atom_ns "entry") root)).
      intros l. revert e. induction l as [|entry l IH]; intros e; [done|].
      simpl. intros Hloop [Hentry Hl]%Forall_cons.
      apply (atom_entry_has_title_text url) in Hentry as [it Hit].
      rewrite Hit in Hloop. simpl in Hloop.
      destruct (for_append (atom_entry url) l) as [its|e'] eqn:Hl';
        simpl in Hloop; [done|].
      by eapply IH.
Qed.

(** C8. Every item of the final collection has a link that is present
    and not empty, and no two items of it have the same link. *)
Theorem aggregate_links_nonempty_distinct urls limit :
  (∀ it, it ∈ items (aggregate urls limit) →
         ∃ l, link it = Some l ∧ l ≠ "")
  ∧ NoDup (link <$> items (aggregate urls limit)).
Proof.
  pose proof (aggregate_items_submseteq urls limit) as Hsub. split.
  - intros it Hit. apply (dedup_by_link_truthy (collect urls limit)).
    by eapply elem_of_submseteq.
  - eapply submseteq_NoDup_fmap; [exact Hsub|].
    apply dedup_by_link_NoDup.
Qed.



(** C10. Aggregation selects and reorders, nothing more: the final
    items, with their multiplicities, are among the concatenated
    results of the per-feed routine, so each of them is, field for
    field, an item that [fetch_rss_feed] returned for one of the
    feeds. *)
Theorem aggregate_selects_fetched_items urls limit :
  items (aggregate urls limit) ⊆+ collect urls limit
  ∧ (∀ it, it ∈ items (aggregate urls limit) →
           ∃ url, url ∈ urls ∧ it ∈ fetch_rss_feed url limit)
  ∧ get_live_news limit = aggregate feeds limit.
Proof.
  assert (items (aggregate urls limit) ⊆+ collect urls limit) as Hsub.
  { etrans; [apply aggregate_items_submseteq|].
    apply sublist_submseteq, dedup_by_link_sublist. }
  split_and!; [done| |done].
  intros it Hit. eapply elem_of_submseteq in Hit; [|exact Hsub].
  rewrite collect_bind in Hit.
  apply list_elem_of_bind in Hit as (url & ? & ?). eauto.
Qed.

End Claims.

(** * Concrete instances *)

Section Instances.
Import Scenario.

(** C3 at a refused connection: feed A and feed B are served, the
    third configured URL is not. *)
Lemma fetch_rss_feed_failure_empty_witness :
  @fetch_rss_feed (world_of net) "https://www.edweek.org/feeds/index.rss" 9
  = [].
Proof.
  apply (@fetch_rss_feed_failure_empty (world_of net)).
  apply (transport_failure _ _ ConnectionError). reflexivity.
Defined.

(** C4 on two items with link [x] followed by one with link [y]. *)
Lemma dedup_by_link_single_pass_witness :
  dedup_by_link [] = []
  ∧ dedup_by_link ([item_x1; item_x2] ++ [item_y]) =
      (if bool_decide (link item_y = None ∨ link item_y = Some "") then
         dedup_by_link [item_x1; item_x2]
       else if bool_decide
                 (link item_y ∈ link <$> dedup_by_link [item_x1; item_x2])
       then dedup_by_link [item_x1; item_x2]
       else dedup_by_link [item_x1; item_x2] ++ [item_y])
  ∧ filter (λ x, link x = Some "x") (dedup_by_link [item_x1; item_x2])
    = take 1 (filter (λ x, link x = Some "x") [item_x1; item_x2]).
Proof.
  apply (dedup_by_link_single_pass [item_x1; item_x2] item_y "x").
  discriminate.
Defined.

(** C6: with limit [-1] the response still has an item, one more than
    [-1] allows. Each feed serves three items; the slices drop the
    last one. *)
Lemma limit_minus_one_exceeds_limit :
  title <$> items (@api_news (world_of net_rss3) (Some (-1))) = ["one"]
  ∧ ¬ (Z.of_nat (length (items (@api_news (world_of net_rss3) (Some (-1)))))
       ≤ -1).
Proof. split; [by vm_compute|]. vm_compute. by intros H; apply H. Qed.

(** C6, amended, at the default limit. *)
Lemma api_news_length_le_limit_witness :
  Z.of_nat (length (items (@api_news (world_of net_rss3) None))) ≤ 9
  ∧ items (@api_news (world_of net_rss3) None)
    = take (Z.to_nat 9)
        (sort_reverse sort_key
           (dedup_by_link (@collect (world_of net_rss3) feeds 9)))
  ∧ count (@api_news (world_of net_rss3) None)
    = Z.of_nat (length (items (@api_news (world_of net_rss3) None)))
  ∧ default_limit = 9.
Proof.
  apply (@api_news_length_le_limit (world_of net_rss3) None).
  unfold default_limit. simpl. lia.
Defined.

(** C7: with limit [-1] a feed of three items yields its first two,
    not the first [min (-1) 3]; and an Atom feed of two entries yields
    nothing when the second title has no text. *)
Lemma parser_not_first_min_items :
  ET.findall "item" rss3_channel = rss3_items
  ∧ length rss3_items = 3%nat
  ∧ @fetch_rss_feed (world_of net_rss3) urlA (-1)
    = @rss_item (world_of net_rss3) urlA <$> take 2 rss3_items
  ∧ @fetch_rss_feed (world_of net_rss3) urlA (-1)
    ≠ @rss_item (world_of net_rss3) urlA
        <$> take (Z.to_nat (Z.min (-1) 3)) rss3_items
  ∧ length (ET.findall (atom "entry") atom_empty_title) = 2%nat
  ∧ length (@fetch_rss_feed (world_of net_empty_title) urlB 9)
    ≠ Z.to_nat (Z.min 9 2).
Proof. split_and!; by vm_compute. Qed.

(** C7, amended, on the feed of three items with limit 2. *)
Lemma parser_first_items_witness :
  @fetch_rss_feed (world_of net_rss3) urlA 2
  = @rss_item (world_of net_rss3) urlA <$> take 2 rss3_items.
Proof.
  apply (@parser_first_items (world_of net_rss3) urlA 2 rss3).
  - lia.
  - exists (mkResponse 200 (Xml rss3)). simpl. split_and!; [reflexivity|lia|reflexivity].
Defined.



End Instances.


(** * Further properties of the feed parser *)

Section ParserProperties.
Context {world : World}.
Implicit Types (url : string) (urls : list string) (limit : Z).
Implicit Types (it : FeedItem) (s t : string).

Lemma parse_date_absent : parse_date None = None ∧ parse_date (Some "") = None.
Proof. done. Qed.

(** A text of one or two blank-separated words has fewer than the five
    fields of a date. *)
Lemma date_fields_few_words s :
  (length (PyStr.split s) ≤ 2)%nat → EmailUtils.date_fields s = None.
Proof.
  intros Hlen. unfold EmailUtils.date_fields.
  destruct (PyStr.truthy s); simpl; [|done].
  destruct (PyStr.split s) as [|a [|b [|c rest]]]; simpl in *; [done| | |lia].
  - destruct (PyStr.endswith "," a || bool_decide (PyStr.lower a ∈ _)); [done|].
    by destruct (0 <=? PyStr.rfind "," a).
  - destruct (PyStr.endswith "," a || bool_decide (PyStr.lower a ∈ _)); [done|].
    by destruct (0 <=? PyStr.rfind "," a).
Qed.

Lemma parse_date_few_words s :
  (length (PyStr.split s) ≤ 2)%nat → parse_date (Some s) = None.
Proof.
  intros Hlen. unfold parse_date, parsedate_to_datetime. simpl.
  rewrite date_fields_few_words by done. by destruct (PyStr.truthy s).
Qed.

Lemma split_no_blank s :
  Forall (λ c, PyStr.isspace c = false) (String.list_ascii_of_string s) →
  (length (PyStr.split s) ≤ 1)%nat.
Proof.
  assert (∀ s, Forall (λ c, PyStr.isspace c = false)
                 (String.list_ascii_of_string s) →
               PyStr.split s = [] ∨ PyStr.split s = [s]) as Hsplit.
  { clear s. induction s as [|c s IH]; intros Hs; [by left|].
    apply Forall_cons in Hs as [Hc Hs]. right. simpl. rewrite Hc.
    destruct s as [|d s]; [done|].
    pose proof Hs as [Hd _]%Forall_cons. rewrite Hd.
    destruct (IH Hs) as [Hnil|Hone].
    - simpl in Hnil. rewrite Hd in Hnil. destruct s as [|e s]; [done|].
      destruct (PyStr.isspace e); [done|].
      by destruct (PyStr.split (String e s)).
    - by rewrite Hone. }
  intros Hs. destruct (Hsplit s Hs) as [-> | ->]; simpl; lia.
Qed.

Lemma rss_item_timestamp url (item : Element) :
  published_ts (rss_item url item)
  = isoformat <$> parse_date (published (rss_item url item)).
Proof. done. Qed.

Lemma atom_entry_timestamp url (entry : Element) it :
  atom_entry url entry = Ok it →
  published_ts it = isoformat <$> parse_date (published it).
Proof.
  unfold atom_entry.
  destruct (ET.find (ET.qname atom_ns "title") entry) as [el|]; simpl.
  - destruct (text el); simpl; [|done]. by intros [= <-].
  - by intros [= <-].
Qed.

(** What holds of the item built from every element holds of every
    fetched item. *)
Lemma fetch_rss_feed_Forall (P : FeedItem → Prop) url limit :
  (∀ item, P (rss_item url item)) →
  (∀ entry it, atom_entry url entry = Ok it → P it) →
  Forall P (fetch_rss_feed url limit).
Proof.
  intros Hrss Hatom. apply Forall_forall. intros it Hit.
  apply fetch_rss_feed_elem_of in Hit as (root & _ & Hfrom).
  destruct (ET.find "channel" root).
  - destruct Hfrom as (item & _ & ->). apply Hrss.
  - destruct Hfrom as (entry & _ & Hok). by eapply Hatom.
Qed.

Lemma aggregate_items_elem_of urls limit it :
  it ∈ items (aggregate urls limit) →
  ∃ url, url ∈ urls ∧ it ∈ fetch_rss_feed url limit.
Proof.
  intros Hit.
  eapply elem_of_submseteq in Hit; [|apply aggregate_items_submseteq].
  eapply elem_of_sublist in Hit; [|apply dedup_by_link_sublist].
  rewrite collect_bind in Hit.
  apply list_elem_of_bind in Hit as (url & ? & ?). eauto.
Qed.

(** X1. Every item that [fetch_rss_feed] returns for a URL has that URL
    as its [source]; hence every item of the aggregated response names
    as its source one of the feeds it was asked to read, and it is an
    item fetched from that very feed. *)
Theorem source_is_requested_url url urls limit :
  Forall (λ it, source it = url) (fetch_rss_feed url limit)
  ∧ Forall (λ it, source it ∈ urls ∧ it ∈ fetch_rss_feed (source it) limit)
      (items (aggregate urls limit)).
Proof.
  assert (∀ u, Forall (λ it, source it = u) (fetch_rss_feed u limit)) as Hsrc.
  { intros u. apply fetch_rss_feed_Forall; [done|].
    intros entry it Hok. by apply atom_entry_Ok in Hok as (_ & _ & ?). }
  split; [apply Hsrc|].
  apply Forall_forall. intros it Hit.
  apply aggregate_items_elem_of in Hit as (u & Hu & Hit).
  pose proof (Hsrc u) as Hall. rewrite Forall_forall in Hall.
  by rewrite (Hall it Hit).
Qed.


(** X3. A date text of at most two blank-separated words never gets a
    timestamp, in the RSS branch and in the Atom branch alike, whatever
    the rest of the date parser does: the RFC 2822 parser wants five
    fields. A text without any blank, such as every ISO 8601 timestamp
    written with [T], is one word at most. *)
Theorem short_date_text_has_no_timestamp url limit :
  Forall (λ it, ∀ t, published it = Some t →
                     (length (PyStr.split t) ≤ 2)%nat →
                     published_ts it = None)
    (fetch_rss_feed url limit)
  ∧ (∀ t, Forall (λ c, PyStr.isspace c = false)
            (String.list_ascii_of_string t) →
          (length (PyStr.split t) ≤ 1)%nat).
Proof.
  split; [|apply split_no_blank].
  assert (∀ it, published_ts it = isoformat <$> parse_date (published it) →
                ∀ t, published it = Some t →
                     (length (PyStr.split t) ≤ 2)%nat →
                     published_ts it = None) as Hshort.
  { intros it -> t -> Hlen. by rewrite parse_date_few_words. }
  apply fetch_rss_feed_Forall.
  - intros item. apply Hshort, rss_item_timestamp.
  - intros entry it Hok. by apply Hshort, (atom_entry_timestamp url entry).
Qed.

Lemma fetch_rss_feed_serves url limit (root : Element) :
  serves url root →
  fetch_rss_feed url limit =
    match ET.find "channel" root with
    | Some channel =>
        rss_item url <$> slice_upto (ET.findall "item" channel) limit
    | None =>
        try_except
          (for_append (atom_entry url)
             (slice_upto (ET.findall (ET.qname atom_ns "entry") root) limit))
          []
    end.
Proof.
  intros Hroot. unfold fetch_rss_feed.
  rewrite (fetch_rss_feed_body_serves _ _ _ Hroot).
  by destruct (ET.find "channel" root).
Qed.

Lemma slice_upto_nil {A : Type} limit : slice_upto (@nil A) limit = [].
Proof. unfold slice_upto. apply take_nil. Qed.

(** X4. A served document with nothing to read is not an error: when
    the root has a [channel] child without [item] children, or has no
    [channel] child and no Atom [entry] child, the result is the empty
    list, for every limit. *)
Theorem empty_document_gives_no_item url limit (root : Element) :
  serves url root →
  match ET.find "channel" root with
  | Some channel => ET.findall "item" channel = []
  | None => ET.findall (ET.qname atom_ns "entry") root = []
  end →
  fetch_rss_feed_body url limit = Ok [] ∧ fetch_rss_feed url limit = [].
Proof.
  intros Hroot Hempty. unfold fetch_rss_feed.
  rewrite (fetch_rss_feed_body_serves _ _ _ Hroot).
  destruct (ET.find "channel" root); rewrite Hempty, slice_upto_nil; done.
Qed.

Lemma fetch_rss_feed_length url limit :
  0 ≤ limit → Z.of_nat (length (fetch_rss_feed url limit)) ≤ limit.
Proof.
  intros Hlimit. unfold fetch_rss_feed, try_except.
  destruct (fetch_rss_feed_body url limit) as [its|e] eqn:Hbody;
    [|simpl; lia].
  destruct (fetch_rss_feed_body_Ok _ _ _ Hbody) as [root Hroot].
  rewrite (fetch_rss_feed_body_serves _ _ _ Hroot) in Hbody.
  destruct (ET.find "channel" root) as [channel|].
  - injection Hbody as <-. rewrite length_fmap, slice_upto_length by done. lia.
  - apply for_append_Ok, Forall2_length in Hbody. rewrite <-Hbody.
    rewrite slice_upto_length by done. lia.
Qed.

(** X5. With a limit that is not negative, one feed contributes at most
    [limit] items, so the concatenation that is deduplicated has at
    most [limit] items per feed. *)
Theorem feed_contribution_bounded url urls limit :
  0 ≤ limit →
  Z.of_nat (length (fetch_rss_feed url limit)) ≤ limit
  ∧ Z.of_nat (length (collect urls limit)) ≤ limit * Z.of_nat (length urls).
Proof.
  intros Hlimit. split; [by apply fetch_rss_feed_length|].
  rewrite collect_bind. induction urls as [|u urls IH]; [simpl; lia|].
  rewrite bind_cons, length_app, length_cons, Nat2Z.inj_add, Nat2Z.inj_succ.
  pose proof (fetch_rss_feed_length u limit Hlimit). lia.
Qed.

End ParserProperties.

(** * Further properties of deduplication and sorting *)

Section DedupSortProperties.
Implicit Types (l collected : list FeedItem) (it : FeedItem) (k : string).

Lemma not_absent_truthy it :
  truthy_opt (link it) = true → ¬ (link it = None ∨ link it = Some "").
Proof. intros Ht Hf. apply truthy_opt_false in Hf. congruence. Qed.

(** A list of items with present, non-empty, pairwise distinct links is
    left as it is. *)
Lemma dedup_by_link_fixed l :
  Forall (λ it, truthy_opt (link it) = true) l →
  NoDup (link <$> l) →
  dedup_by_link l = l.
Proof.
  induction l as [|it l IH] using rev_ind; [done|].
  rewrite Forall_app, Forall_singleton, fmap_app.
  intros [Hl Hit] (Hnd & Hnotin & _)%NoDup_app.
  rewrite dedup_by_link_snoc, IH by done.
  rewrite bool_decide_false by by apply not_absent_truthy.
  rewrite bool_decide_false; [done|].
  intros Hin. apply (Hnotin _ Hin). simpl. left.
Qed.

Lemma dedup_by_link_Forall_truthy l :
  Forall (λ it, truthy_opt (link it) = true) (dedup_by_link l).
Proof.
  apply Forall_forall. intros it Hit.
  apply truthy_opt_true. by eapply dedup_by_link_truthy.
Qed.

(** X6. Deduplication is idempotent, and it changes nothing in a list
    whose links are present, non-empty and pairwise distinct. *)
Theorem dedup_by_link_idempotent l :
  dedup_by_link (dedup_by_link l) = dedup_by_link l
  ∧ (Forall (λ it, truthy_opt (link it) = true) l →
     NoDup (link <$> l) → dedup_by_link l = l).
Proof.
  split; [|apply dedup_by_link_fixed].
  apply dedup_by_link_fixed;
    [apply dedup_by_link_Forall_truthy|apply dedup_by_link_NoDup].
Qed.

(** X7. Deduplicating a concatenation keeps the deduplicated first part
    whole and in front, followed by the deduplicated second part without
    the items whose link the first part already has: items fetched from
    an earlier feed are never displaced by a later feed. *)
Theorem dedup_by_link_app l1 l2 :
  dedup_by_link (l1 ++ l2)
  = dedup_by_link l1
    ++ filter (λ it, link it ∉ link <$> dedup_by_link l1) (dedup_by_link l2).
Proof.
  induction l2 as [|x l2 IH] using rev_ind.
  - by rewrite !app_nil_r.
  - rewrite app_assoc, !dedup_by_link_snoc, IH.
    case_bool_decide as Habsent; [done|].
    set (P := λ it, link it ∉ link <$> dedup_by_link l1).
    destruct (decide (link x ∈ link <$> dedup_by_link l1)) as [Hin1|Hin1].
    + rewrite bool_decide_true by (rewrite fmap_app, elem_of_app; by left).
      case_bool_decide; [done|].
      rewrite filter_app, filter_cons, filter_nil.
      rewrite decide_False by (unfold P; by intros Hn; apply Hn).
      by rewrite app_nil_r.
    + destruct (decide (link x ∈ link <$> dedup_by_link l2)) as [Hin2|Hin2].
      * rewrite (bool_decide_true (link x ∈ link <$> dedup_by_link l2)) by done.
        rewrite bool_decide_true; [done|].
        rewrite fmap_app, elem_of_app. right.
        apply list_elem_of_fmap in Hin2 as (y & Hy & Hyin).
        apply list_elem_of_fmap. exists y. split; [done|].
        apply list_elem_of_filter. split; [|done].
        unfold P. by rewrite <-Hy.
      * rewrite (bool_decide_false (link x ∈ link <$> dedup_by_link l2))
          by done.
        rewrite bool_decide_false.
        { rewrite filter_app, filter_cons, filter_nil.
          rewrite decide_True by done. by rewrite app_assoc. }
        rewrite fmap_app, elem_of_app. intros [?|Hin]; [done|].
        apply Hin2. apply list_elem_of_fmap in Hin as (y & Hy & Hyin).
        apply list_elem_of_filter in Hyin as [_ Hyin].
        apply list_elem_of_fmap. by exists y.
Qed.

(** Every non-empty link of the input is the link of a kept item. *)
Lemma dedup_by_link_covers collected it k :
  it ∈ collected → link it = Some k → k ≠ "" →
  ∃ it', it' ∈ dedup_by_link collected ∧ link it' = Some k.
Proof.
  intros Hit Hlink Hk.
  pose proof (dedup_by_link_first collected k Hk) as Hfirst.
  assert (it ∈ filter (λ x, link x = Some k) collected) as Hf
    by (by apply list_elem_of_filter).
  destruct (filter (λ x, link x = Some k) collected) as [|y ys];
    [by apply elem_of_nil in Hf|].
  simpl in Hfirst. exists y.
  assert (y ∈ filter (λ x, link x = Some k) (dedup_by_link collected)) as Hy
    by (rewrite Hfirst; left).
  apply list_elem_of_filter in Hy as [? ?]. done.
Qed.

(** A kept item is the first input item of its link. *)
Lemma dedup_by_link_is_first collected it :
  it ∈ dedup_by_link collected →
  head (filter (λ x, link x = link it) collected) = Some it.
Proof.
  intros Hit.
  destruct (dedup_by_link_truthy _ _ Hit) as (k & Hk & Hne).
  rewrite Hk.
  assert (it ∈ filter (λ x, link x = Some k) (dedup_by_link collected)) as Hf
    by (by apply list_elem_of_filter).
  rewrite dedup_by_link_first in Hf by done.
  destruct (filter (λ x, link x = Some k) collected) as [|y ys];
    [by apply elem_of_nil in Hf|].
  simpl in *. by apply list_elem_of_singleton in Hf as ->.
Qed.

(** A list that is already in descending key order is left as it is by
    the sort. *)
Lemma sort_reverse_sorted_id {A : Type} (key : A → string) (l : list A) :
  Sorted (key_ge key) l → sort_reverse key l = l.
Proof.
  intros Hs. symmetry. by apply sort_reverse_unique.
Qed.

Lemma untimed_sorted l :
  Forall (λ it, published_ts it = None) l → Sorted (key_ge sort_key) l.
Proof.
  induction 1 as [|x l Hx Hl IH]; constructor; [done|].
  destruct Hl as [|y l Hy _]; constructor.
  unfold key_ge, sort_key. by rewrite Hx, Hy.
Qed.

End DedupSortProperties.

(** * Further properties of the aggregator *)

Section AggregatorProperties.
Context {world : World}.
Implicit Types (url : string) (urls : list string) (limit : Z).
Implicit Types (it : FeedItem).

Lemma failure_gives_nil url limit :
  fetch_failure url limit → fetch_rss_feed url limit = [].
Proof.
  unfold fetch_rss_feed, try_except, fetch_rss_feed_body.
  intros [e Hget|resp Hget Hstatus|resp Hget Hbody|e Hraise].
  - by rewrite Hget.
  - rewrite Hget. simpl. by rewrite raise_for_status_Raise.
  - rewrite Hget. simpl.
    destruct (raise_for_status resp) as [[]|]; simpl; [|done].
    by rewrite Hbody.
  - unfold fetch_rss_feed_body in Hraise. by rewrite Hraise.
Qed.

Lemma aggregate_of_collect urls1 urls2 limit :
  collect urls1 limit = collect urls2 limit →
  aggregate urls1 limit = aggregate urls2 limit.
Proof. intros Heq. unfold aggregate. by rewrite Heq. Qed.

(** X8. A feed that fails contributes nothing and disturbs nothing: the
    response is the one the same list of feeds without the failing one
    would give. *)
Theorem failed_feed_contributes_nothing (urls1 urls2 : list string) url limit :
  fetch_failure url limit →
  collect (urls1 ++ url :: urls2) limit = collect (urls1 ++ urls2) limit
  ∧ aggregate (urls1 ++ url :: urls2) limit = aggregate (urls1 ++ urls2) limit.
Proof.
  intros Hfail%failure_gives_nil.
  assert (collect (urls1 ++ url :: urls2) limit
          = collect (urls1 ++ urls2) limit) as Hcollect.
  { rewrite !collect_bind, !bind_app, bind_cons. by rewrite Hfail. }
  split; [done|]. by apply aggregate_of_collect.
Qed.

(** X9. When the limit is at least the number of distinct non-empty
    links that were fetched, truncation removes nothing: the response is
    the whole sorted list, a rearrangement of the deduplicated items,
    and every non-empty link that was fetched is the link of an item of
    the response. *)
Theorem large_limit_loses_nothing urls limit :
  0 ≤ limit →
  Z.of_nat (length (dedup_by_link (collect urls limit))) ≤ limit →
  items (aggregate urls limit)
  = sort_reverse sort_key (dedup_by_link (collect urls limit))
  ∧ items (aggregate urls limit) ≡ₚ dedup_by_link (collect urls limit)
  ∧ Forall (λ it, ∀ k, link it = Some k → k ≠ "" →
                       Some k ∈ link <$> items (aggregate urls limit))
      (collect urls limit).
Proof.
  intros Hlimit Hlen.
  assert (items (aggregate urls limit)
          = sort_reverse sort_key (dedup_by_link (collect urls limit))) as Hall.
  { rewrite aggregate_items, slice_upto_nonneg by done.
    apply take_ge. rewrite (Permutation_length (sort_reverse_perm _ _)). lia. }
  split_and!; [done|rewrite Hall; apply sort_reverse_perm|].
  apply Forall_forall. intros it Hit k Hk Hne.
  destruct (dedup_by_link_covers _ it k Hit Hk Hne) as (it' & Hit' & Hk').
  apply list_elem_of_fmap. exists it'. split; [done|].
  by rewrite Hall, sort_reverse_perm.
Qed.

Lemma slice_upto_negative {A : Type} (l : list A) limit :
  limit < 0 → slice_upto l limit = take (length l - Z.to_nat (- limit)) l.
Proof.
  intros Hlimit. unfold slice_upto.
  destruct (Z.ltb_spec limit 0) as [_|?]; [|lia].
  f_equal. lia.
Qed.

(** X10. A negative limit does not bound the response but cuts its end:
    the response is the sorted list without its last [-limit] items
    (empty when there are no more than that), and [count] is the number
    of items that remain. *)
Theorem negative_limit_drops_last urls limit :
  limit < 0 →
  let sorted := sort_reverse sort_key (dedup_by_link (collect urls limit)) in
  items (aggregate urls limit)
  = take (length sorted - Z.to_nat (- limit)) sorted
  ∧ count (aggregate urls limit)
    = Z.max 0 (Z.of_nat (length sorted) + limit).
Proof.
  intros Hlimit sorted.
  assert (items (aggregate urls limit)
          = take (length sorted - Z.to_nat (- limit)) sorted) as Hitems
    by (by rewrite aggregate_items, slice_upto_negative).
  split; [done|].
  change (count (aggregate urls limit))
    with (Z.of_nat (length (items (aggregate urls limit)))).
  rewrite Hitems, length_take. lia.
Qed.

(** X11. Every item of the response is the first item with its link in
    the concatenation of the fetched feeds, feeds in the order given and
    items in document order: of two feeds that carry one link, the feed
    listed first supplies the item. *)
Theorem response_items_are_first_occurrences urls limit :
  Forall (λ it, head (filter (λ x, link x = link it) (collect urls limit))
                = Some it)
    (items (aggregate urls limit)).
Proof.
  apply Forall_forall. intros it Hit.
  apply dedup_by_link_is_first.
  eapply elem_of_submseteq; [exact Hit|apply aggregate_items_submseteq].
Qed.

(** X12. When no fetched item has a timestamp, the sort changes nothing:
    the response is the deduplicated list in its original order (feeds
    in the order given, items in document order), cut at the limit. *)
Theorem untimed_items_keep_order urls limit :
  Forall (λ it, published_ts it = None) (collect urls limit) →
  items (aggregate urls limit)
  = slice_upto (dedup_by_link (collect urls limit)) limit.
Proof.
  intros Hnone. rewrite aggregate_items.
  rewrite sort_reverse_sorted_id; [done|].
  apply untimed_sorted.
  rewrite Forall_forall in Hnone. apply Forall_forall. intros it Hit.
  apply Hnone. eapply elem_of_sublist; [done|apply dedup_by_link_sublist].
Qed.

End AggregatorProperties.

(** * Blanks around the text fields of RSS items *)

Section StripFacts.
Implicit Types (s t u : string) (c : ascii).

Lemma string_app_cons c s t : String c s +:+ t = String c (s +:+ t).
Proof. done. Qed.

Lemma string_app_nil_r s : s +:+ "" = s.
Proof.
  induction s as [|c s IH]; [done|]. by rewrite string_app_cons, IH.
Qed.

Lemma string_app_assoc s t u : (s +:+ t) +:+ u = s +:+ (t +:+ u).
Proof.
  induction s as [|c s IH]; [done|]. by rewrite !string_app_cons, IH.
Qed.

Lemma rev_app_spec s t : String.rev_app s t = String.rev s +:+ t.
Proof.
  revert t. induction s as [|c s IH]; intros t; [done|].
  unfold String.rev. simpl.
  by rewrite (IH (String c t)), (IH (String c "")), string_app_assoc.
Qed.

Lemma rev_cons c s : String.rev (String c s) = String.rev s +:+ String c "".
Proof. unfold String.rev at 1. simpl. apply rev_app_spec. Qed.

Lemma rev_app_append s u t :
  String.rev_app (s +:+ u) t = String.rev_app u (String.rev_app s t).
Proof.
  revert t. induction s as [|c s IH]; intros t; [done|].
  rewrite string_app_cons. simpl. apply IH.
Qed.

Lemma rev_snoc s c : String.rev (s +:+ String c "") = String c (String.rev s).
Proof. unfold String.rev. by rewrite rev_app_append. Qed.

Lemma rev_involutive s : String.rev (String.rev s) = s.
Proof.
  induction s as [|c s IH]; [done|]. by rewrite rev_cons, rev_snoc, IH.
Qed.

Lemma rev_nonempty c s : String.rev (String c s) ≠ "".
Proof. rewrite rev_cons. by destruct (String.rev s). Qed.

Lemma lstrip_head s :
  match PyStr.lstrip s with
  | String c _ => PyStr.isspace c = false
  | EmptyString => True
  end.
Proof.
  induction s as [|c s IH]; [done|]. simpl.
  by destruct (PyStr.isspace c) eqn:Hc.
Qed.

Lemma lstrip_fixed c s :
  PyStr.isspace c = false → PyStr.lstrip (String c s) = String c s.
Proof. intros Hc. simpl. by rewrite Hc. Qed.

Lemma lstrip_idemp s : PyStr.lstrip (PyStr.lstrip s) = PyStr.lstrip s.
Proof.
  pose proof (lstrip_head s) as Hhead.
  destruct (PyStr.lstrip s) as [|c t]; [done|]. by apply lstrip_fixed.
Qed.

Lemma lstrip_snoc u c :
  PyStr.lstrip (u +:+ String c "") =
    match PyStr.lstrip u with
    | EmptyString => PyStr.lstrip (String c "")
    | v => v +:+ String c ""
    end.
Proof.
  induction u as [|d u IH]; [done|].
  rewrite string_app_cons. simpl. by destruct (PyStr.isspace d).
Qed.

(** [rstrip], read from the front of the text. *)
Lemma rstrip_cons c s :
  PyStr.rstrip (String c s) =
    match PyStr.rstrip s with
    | EmptyString => if PyStr.isspace c then "" else String c ""
    | r => String c r
    end.
Proof.
  unfold PyStr.rstrip. rewrite rev_cons, lstrip_snoc.
  destruct (PyStr.lstrip (String.rev s)) as [|d v].
  - simpl. by destruct (PyStr.isspace c).
  - rewrite rev_snoc. pose proof (rev_nonempty d v).
    by destruct (String.rev (String d v)).
Qed.

Lemma rstrip_idemp s : PyStr.rstrip (PyStr.rstrip s) = PyStr.rstrip s.
Proof. unfold PyStr.rstrip. by rewrite rev_involutive, lstrip_idemp. Qed.

(** A stripped text has no blank at either end. *)
Lemma strip_stripped s :
  PyStr.lstrip (PyStr.strip s) = PyStr.strip s
  ∧ PyStr.rstrip (PyStr.strip s) = PyStr.strip s.
Proof.
  unfold PyStr.strip. split; [|apply rstrip_idemp].
  pose proof (lstrip_head s) as Hhead.
  destruct (PyStr.lstrip s) as [|c t]; [done|].
  rewrite rstrip_cons. destruct (PyStr.rstrip t).
  - rewrite Hhead. by apply lstrip_fixed.
  - by apply lstrip_fixed.
Qed.

Lemma strip_idemp s : PyStr.strip (PyStr.strip s) = PyStr.strip s.
Proof.
  destruct (strip_stripped s) as [Hl Hr].
  unfold PyStr.strip at 1. by rewrite Hl, Hr.
Qed.

End StripFacts.

Section StripProperties.
Context {world : World}.

(** X13. The title, the link and the published text of every item
    fetched from an RSS document carry no blank at either end:
    stripping them again, on the left or on the right, changes
    nothing. *)
Theorem rss_fields_have_no_outer_blank (url : string) (limit : Z)
    (root channel : Element) :
  serves url root → ET.find "channel" root = Some channel →
  Forall (λ it,
            ∃ l p,
              link it = Some l ∧ published it = Some p
              ∧ Forall (λ x, PyStr.lstrip x = x ∧ PyStr.rstrip x = x
                             ∧ PyStr.strip x = x)
                  [title it; l; p])
    (fetch_rss_feed url limit).
Proof.
  intros Hroot Hchannel.
  rewrite (fetch_rss_feed_serves _ _ _ Hroot), Hchannel.
  apply Forall_fmap, Forall_forall. intros item _. simpl.
  eexists _, _. split_and!; [done..|].
  repeat constructor; try apply strip_stripped; apply strip_idemp.
Qed.

End StripProperties.

(** * The diagnostic route *)

Section DiagProperties.
Import Diag.

(** Every way the host can behave: the import raises (an [ImportError]
    or not), [db] is [None], or [db] is an object whose name is absent,
    present or raises, and whose collections can be listed or not. *)
Ltac host_cases host :=
  destruct host as [imp env];
  destruct imp as [[[] msg]|[[[|v|[[] msg]] [[[] msg']|names]]|]].

Lemma env_flag_set {host : Host} (name : string) :
  env_flag name = "✅ Set" ↔ ∃ v, getenv name = Some v ∧ v ≠ "".
Proof.
  unfold env_flag. destruct (truthy_opt (getenv name)) eqn:Ht.
  - by apply truthy_opt_true in Ht.
  - split; [done|]. intros Hv. apply truthy_opt_true in Hv. congruence.
Qed.

Lemma slice_upto_ten (names : list string) :
  slice_upto names 10 = take 10 names.
Proof. by apply slice_upto_nonneg. Qed.

Lemma utf8_upto_len (n : nat) (s : string) :
  (utf8_len (utf8_upto n s) ≤ n)%nat.
Proof.
  revert n. induction s as [|c s IH]; intros n; simpl; [lia|].
  destruct (is_continuation c) eqn:Hc; simpl.
  - rewrite Hc. apply IH.
  - destruct n as [|n]; simpl; [lia|]. rewrite Hc.
    specialize (IH n). lia.
Qed.

(** X14. Every exception that derives from [Exception] and is raised
    while the database module is imported or probed is caught: the
    function then returns its report. In the returned report the
    [database_url] and [database_name] fields depend on the environment
    alone: each says [Set] exactly when its variable is present and not
    empty. What the function wrote into them while it probed the
    database is overwritten. *)
Theorem report_env_fields_from_environment (host : Host) :
  test_database = inr final_report
  ∧ (∀ r, test_database = inr r →
          backend r = "✅ Running"
          ∧ database_url r = Some (env_flag "DATABASE_URL")
          ∧ database_name r = Some (env_flag "DATABASE_NAME"))
  ∧ (∀ name, env_flag name = "✅ Set" ↔ ∃ v, getenv name = Some v ∧ v ≠ "")
  ∧ (∀ name, env_flag name = "✅ Set" ∨ env_flag name = "❌ Not Set").
Proof.
  split_and!.
  - host_cases host; done.
  - intros r. host_cases host; by intros [= <-].
  - apply env_flag_set.
  - intros name. unfold env_flag. destruct (truthy_opt (getenv name)); auto.
Qed.

(** X15. The [collections] field of the report holds at most ten names:
    the first ten collection names of the database when the database
    was reached and listed its collections, and nothing otherwise; it is
    never filled unless the [database] field says the database works. *)
Theorem collections_are_first_ten (host : Host) :
  (length (collections final_report) ≤ 10)%nat
  ∧ (∀ db names,
       db_reached db → list_collection_names db = inr names →
       collections final_report = take 10 names)
  ∧ ((¬ ∃ db names, db_reached db ∧ list_collection_names db = inr names) →
     collections final_report = [])
  ∧ (collections final_report ≠ [] →
     database final_report = "✅ Connected & Working").
Proof.
  unfold db_reached.
  host_cases host; cbn -[slice_upto];
    rewrite ?slice_upto_ten, ?length_take;
    (split_and!; [lia| | |done]);
    try (intros db names' [[= <-] Hname] Hlist; simpl in *;
         first [congruence | exfalso; by eapply Hname]);
    try done.
  - intros Hnot. exfalso. apply Hnot. eexists _, _. by split_and!.
  - intros Hnot. exfalso. apply Hnot. eexists _, _. by split_and!.
Qed.

(** X16. How the report tells the state of the database. The
    [connection_status] is [Connected] exactly when [db] was imported,
    is not [None] and its name could be read; [database] says the
    database works exactly when, moreover, it listed its collections.
    When listing raises, the report stays [Connected], holds no
    collection, and [database] carries the first 50 characters of the
    text of the exception. *)
Theorem database_status_cases (host : Host) :
  (database final_report = "✅ Connected & Working"
   ↔ ∃ db names, db_reached db ∧ list_collection_names db = inr names)
  ∧ (connection_status final_report = "Connected" ↔ ∃ db, db_reached db)
  ∧ (connection_status final_report = "Connected"
     ∨ connection_status final_report = "Not Connected")
  ∧ (∀ db e,
       db_reached db → list_collection_names db = inl e →
       database final_report
       = "⚠️  Connected but Error: " +:+ utf8_upto 50 (message e)
       ∧ connection_status final_report = "Connected"
       ∧ collections final_report = [])
  ∧ (∀ s, (utf8_len (utf8_upto 50 s) ≤ 50)%nat).
Proof.
  unfold db_reached.
  split_and!; [| | | |intros s; apply utf8_upto_len].
  - host_cases host; cbn; (split; [try done|]);
      try (intros (db & names' & [[=] Hname] & Hlist); subst; simpl in *;
           first [congruence | exfalso; by eapply Hname]).
    + intros _. eexists _, _. by split_and!.
    + intros _. eexists _, _. by split_and!.
  - host_cases host; cbn; (split; [try done|]);
      try (intros (db & [[=] Hname]); subst; simpl in *;
           first [congruence | exfalso; by eapply Hname]);
      intros _; eexists; by split_and!.
  - host_cases host; cbn; auto.
  - host_cases host; cbn;
      intros db e [[= <-] Hname] Hlist; simpl in *;
      first [congruence | exfalso; by eapply Hname | idtac];
      injection Hlist as <-; done.
Qed.

End DiagProperties.

(** * The order of the whole response *)

Section OrderProperties.
Context {world : World}.

Lemma key_ge_transitive {A : Type} (key : A → string) :
  Transitive (key_ge key).
Proof. intros a b c Hab Hbc. unfold key_ge in *. by etrans. Qed.

Lemma string_le_empty (s : string) : String.le s "" → s = "".
Proof. intros Hs. apply (anti_symm String.le); [done|by destruct s]. Qed.

Lemma StronglySorted_impl {A : Type} (R R' : relation A) (l : list A) :
  (∀ a b, R a b → R' a b) → StronglySorted R l → StronglySorted R' l.
Proof.
  intros Himpl. induction 1 as [|x l Hl IH Hall]; constructor; [done|].
  eapply Forall_impl; [exact Hall|]. intros b. apply Himpl.
Qed.

(** A fetched item has no timestamp, or the ISO text of a date. *)
Lemma fetched_timestamp_shape (url : string) (limit : Z) :
  Forall (λ it, published_ts it = None
                ∨ ∃ d, published_ts it = Some (isoformat d))
    (fetch_rss_feed url limit).
Proof.
  assert (∀ it, published_ts it = isoformat <$> parse_date (published it) →
                published_ts it = None
                ∨ ∃ d, published_ts it = Some (isoformat d)) as Hshape.
  { intros it ->. destruct (parse_date (published it)) as [d|]; simpl; eauto. }
  apply fetch_rss_feed_Forall.
  - intros item. apply Hshape, rss_item_timestamp.
  - intros entry it Hok. by apply Hshape, (atom_entry_timestamp url entry).
Qed.

(** X17. When the ISO text of a date is never empty, as it is in the
    library, the response is in descending order of timestamp text as a
    whole, not only pair by pair: the timestamp text of every item (an
    absent one read as the empty string) is at least that of every item
    after it. Hence the items without timestamp come last: after an
    item whose [published_ts] is absent, every item's [published_ts] is
    absent. *)
Theorem response_descending_throughout (urls : list string) (limit : Z) :
  (∀ d : datetime, isoformat d ≠ "") →
  StronglySorted
    (λ a b, String.le (default "" (published_ts b))
                      (default "" (published_ts a)))
    (items (aggregate urls limit))
  ∧ (∀ l1 a l2,
       items (aggregate urls limit) = l1 ++ a :: l2 →
       published_ts a = None →
       Forall (λ b, published_ts b = None) l2).
Proof.
  intros Hiso.
  assert (StronglySorted
            (λ a b, String.le (default "" (published_ts b))
                              (default "" (published_ts a)))
            (items (aggregate urls limit))) as Hsorted.
  { apply (StronglySorted_impl (key_ge sort_key));
      [intros a b; apply key_ge_sort_key|].
    apply Sorted_StronglySorted; [apply key_ge_transitive|].
    rewrite aggregate_items.
    eapply Sorted_prefix; [apply slice_upto_prefix|].
    apply sort_reverse_sorted. }
  split; [done|].
  intros l1 a l2 Heq Ha.
  assert (∀ b, b ∈ l2 → b ∈ items (aggregate urls limit)) as Hin.
  { intros b Hb. rewrite Heq, elem_of_app, elem_of_cons. auto. }
  rewrite Heq in Hsorted.
  apply StronglySorted_app_1_r, StronglySorted_cons in Hsorted as [Hall _].
  rewrite Forall_forall in Hall. apply Forall_forall. intros b Hb.
  specialize (Hall b Hb). rewrite Ha in Hall. simpl in Hall.
  apply string_le_empty in Hall.
  destruct (aggregate_items_elem_of _ _ _ (Hin b Hb)) as (url & _ & Hfetched).
  pose proof (fetched_timestamp_shape url limit) as Hshape.
  rewrite Forall_forall in Hshape.
  destruct (Hshape b Hfetched) as [Hnone|[d Hd]]; [done|].
  rewrite Hd in Hall. simpl in Hall. by destruct (Hiso d).
Qed.

End OrderProperties.

(** * Concrete instances of the further properties *)

Section FurtherInstances.
Import Scenario Samples.

(** X4 on a channel without items. *)
Lemma empty_document_gives_no_item_witness :
  @fetch_rss_feed_body (world_of net_no_item) urlA 9 = Ok []
  ∧ @fetch_rss_feed (world_of net_no_item) urlA 9 = [].
Proof.
  apply (@empty_document_gives_no_item (world_of net_no_item) urlA 9
           rss_no_item).
  - exists (mkResponse 200 (Xml rss_no_item)). simpl.
    split_and!; [reflexivity|lia|reflexivity].
  - reflexivity.
Defined.

(** X5 on three feeds of three items each, with limit 2. *)
Lemma feed_contribution_bounded_witness :
  Z.of_nat (length (@fetch_rss_feed (world_of net_rss3) urlA 2)) ≤ 2
  ∧ Z.of_nat (length (@collect (world_of net_rss3) feeds 2))
    ≤ 2 * Z.of_nat (length feeds).
Proof.
  apply (@feed_contribution_bounded (world_of net_rss3) urlA feeds 2). lia.
Defined.

(** X8: feed A and feed B are served, the third feed is refused. *)
Lemma failed_feed_contributes_nothing_witness :
  @collect (world_of net)
    ([urlA; urlB] ++ "https://www.edweek.org/feeds/index.rss" :: []) 9
  = @collect (world_of net) ([urlA; urlB] ++ []) 9
  ∧ @aggregate (world_of net)
      ([urlA; urlB] ++ "https://www.edweek.org/feeds/index.rss" :: []) 9
    = @aggregate (world_of net) ([urlA; urlB] ++ []) 9.
Proof.
  apply (@failed_feed_contributes_nothing (world_of net)).
  apply (transport_failure _ _ ConnectionError). reflexivity.
Defined.

(** X9: three distinct links and limit 9. *)
Lemma large_limit_loses_nothing_witness :
  items (@aggregate (world_of net_rss3) feeds 9)
  = sort_reverse sort_key
      (dedup_by_link (@collect (world_of net_rss3) feeds 9))
  ∧ items (@aggregate (world_of net_rss3) feeds 9)
    ≡ₚ dedup_by_link (@collect (world_of net_rss3) feeds 9)
  ∧ Forall (λ it, ∀ k, link it = Some k → k ≠ "" →
                       Some k ∈ link
                         <$> items (@aggregate (world_of net_rss3) feeds 9))
      (@collect (world_of net_rss3) feeds 9).
Proof.
  apply (@large_limit_loses_nothing (world_of net_rss3) feeds 9).
  - lia.
  - vm_compute. discriminate.
Defined.

(** X10 with limit [-1]. *)
Lemma negative_limit_drops_last_witness :
  items (@aggregate (world_of net_rss3) feeds (-1))
  = take
      (length (sort_reverse sort_key
                 (dedup_by_link (@collect (world_of net_rss3) feeds (-1))))
       - Z.to_nat (- -1))
      (sort_reverse sort_key
         (dedup_by_link (@collect (world_of net_rss3) feeds (-1))))
  ∧ count (@aggregate (world_of net_rss3) feeds (-1))
    = Z.max 0
        (Z.of_nat
           (length (sort_reverse sort_key
                      (dedup_by_link
                         (@collect (world_of net_rss3) feeds (-1)))))
         + -1).
Proof.
  apply (@negative_limit_drops_last (world_of net_rss3) feeds (-1)). lia.
Defined.

(** X12: the items of the three-item feed carry no date. *)
Lemma untimed_items_keep_order_witness :
  items (@aggregate (world_of net_rss3) feeds 9)
  = slice_upto (dedup_by_link (@collect (world_of net_rss3) feeds 9)) 9.
Proof.
  apply (@untimed_items_keep_order (world_of net_rss3) feeds 9).
  vm_compute. repeat constructor.
Defined.

(** X13 on an item with blanks around its title, link and date. *)
Lemma rss_fields_have_no_outer_blank_witness :
  Forall (λ it,
            ∃ l p,
              link it = Some l ∧ published it = Some p
              ∧ Forall (λ x, PyStr.lstrip x = x ∧ PyStr.rstrip x = x
                             ∧ PyStr.strip x = x)
                  [title it; l; p])
    (@fetch_rss_feed (world_of net_padded) urlA 9).
Proof.
  apply (@rss_fields_have_no_outer_blank (world_of net_padded) urlA 9
           rss_padded rss_padded_channel).
  - exists (mkResponse 200 (Xml rss_padded)). simpl.
    split_and!; [reflexivity|lia|reflexivity].
  - reflexivity.
Defined.

End FurtherInstances.

(** * Further concrete instances *)

Section DatedInstances.
Import Scenario DateSamples.

(** C3: a response with status 300 and a feed as its body is not an
    error for [raise_for_status]; the body is parsed and its three
    items are returned. *)
Lemma redirect_status_is_parsed :
  net_status_300 urlA = Ok (mkResponse 300 (Xml rss3))
  ∧ title <$> @fetch_rss_feed (world_of net_status_300) urlA 9
    = ["one"; "two"; "three"]
  ∧ @fetch_rss_feed (world_of net_status_300) urlA 9 ≠ [].
Proof. split_and!; by vm_compute. Qed.

(** C5: two dates with different UTC offsets. The response puts first
    the item with the greater timestamp text, which is the earlier
    instant (16:00 UTC before 20:00 UTC of 2024-01-01). *)
Lemma mixed_offsets_not_chronological :
  link <$> items (@aggregate (Dates.world net_offsets) [urlA] 9)
  = [Some "early"; Some "late"]
  ∧ published_ts <$> items (@aggregate (Dates.world net_offsets) [urlA] 9)
    = [Some "2024-01-02T01:00:00+09:00"; Some "2024-01-01T20:00:00+00:00"]
  ∧ (λ it, @parse_date (Dates.world net_offsets) (published it)
             ≫= Dates.instant)
      <$> items (@aggregate (Dates.world net_offsets) [urlA] 9)
    = [Some 1704124800; Some 1704139200]
  ∧ 1704124800 < 1704139200.
Proof. split_and!; by vm_compute. Qed.

Lemma dates_isoformat_nonempty (d : Dates.date) : Dates.isoformat d ≠ "".
Proof. by destruct d. Defined.

(** X17 on a feed whose items have and have not a date, in turn. *)
Lemma response_descending_throughout_witness :
  StronglySorted
    (λ a b, String.le (default "" (published_ts b))
                      (default "" (published_ts a)))
    (items (@aggregate (Dates.world net_mixed) [urlA] 9))
  ∧ (∀ l1 a l2,
       items (@aggregate (Dates.world net_mixed) [urlA] 9) = l1 ++ a :: l2 →
       published_ts a = None →
       Forall (λ b, published_ts b = None) l2).
Proof.
  apply (@response_descending_throughout (Dates.world net_mixed) [urlA] 9).
  exact dates_isoformat_nonempty.
Defined.

End DatedInstances.
